(** * A to-do list manager: the record store and its command layer

    Shallow embedding of [src/todo.py]: the [TodoItem] record with its
    dictionary conversions, and the [TodoManager] store with its load/save
    round trip and its add / remove / complete / uncomplete / update /
    list operations.

    Modelling conventions.
    - Python [int] is [Z]; [Optional[str]] is [option string]; the [id]
      attribute, which [__init__] leaves at [None] until the manager
      assigns it, is [option Z].
    - A Python [str] is a Rocq [string], one character per code point
      below 256; [lower] is [str.lower] on that range.
    - [datetime.now().strftime(...)] is a reading of the clock: the
      operations that call it take the formatted timestamp [now] as an
      explicit argument.
    - The file named by [self.filename] is a component of the state.  It is
      described by what [os.path.exists] and [json.load] make of it:
      absent, present but rejected by the decoder ([JSONDecodeError]), or
      decoded to a JSON value.  [json.dump] followed by [json.load] is
      taken to return the value that was dumped.
    - Exceptions are values of an error monad. *)

From Stdlib Require Import ZArith List Bool Lia.
From Stdlib Require Import Ascii String.
From Stdlib Require Import Sorted Permutation.
From Stdlib Require Import DecimalString.
Import ListNotations.

Local Open Scope string_scope.
Local Open Scope Z_scope.
Local Open Scope list_scope.

(** ** Strings *)

(** [str.lower] on one code point below 256: the ASCII capitals and the
    Latin-1 capitals (all of 192..222 but the multiplication sign 215) move
    up by 32; every other code point is its own lower case. *)
Definition lower_char (c : ascii) : ascii :=
  let n := N_of_ascii c in
  if ((65 <=? n) && (n <=? 90))%N
     || ((192 <=? n) && (n <=? 222) && negb (n =? 215))%N
  then ascii_of_N (n + 32)
  else c.

Fixpoint lower (s : string) : string :=
  match s with
  | EmptyString => EmptyString
  | String c s' => String (lower_char c) (lower s')
  end.

(** Truth value of an [Optional[str]] in a condition: [None] and the empty
    string are false. *)
Definition truthy (o : option string) : bool :=
  match o with
  | None => false
  | Some s => negb (s =? "")%string
  end.

(** [x in ["low", "medium", "high"]]. *)
Definition priorities : list string := ["low"; "medium"; "high"].

Definition str_in (x : string) (l : list string) : bool :=
  existsb (String.eqb x) l.

(** ** JSON values, as [json.load] returns them

    A JSON object is the list of its key/value pairs in document order;
    numbers are integers (no claim here depends on a float). *)
#[local] Set Warnings "-register-all".
Inductive json : Type :=
| JNull
| JBool (b : bool)
| JInt (z : Z)
| JStr (s : string)
| JArr (l : list json)
| JObj (kvs : list (string * json)).
#[local] Set Warnings "register-all".

(** What the code finds at [self.filename]. *)
Inductive file_state : Type :=
| Absent                      (* [os.path.exists] is false *)
| Undecodable                 (* [json.load] raises [JSONDecodeError] *)
| Document (data : json).     (* [json.load] returns [data] *)

(** ** Exceptions *)

Inductive exn : Type :=
| KeyError (key : string)
| TypeError
| AttributeError.

Inductive exc (A : Type) : Type :=
| Ok (a : A)
| Raise (e : exn).
Arguments Ok {A} a.
Arguments Raise {A} e.

Definition bind {A B : Type} (m : exc A) (k : A -> exc B) : exc B :=
  match m with
  | Ok a => k a
  | Raise e => Raise e
  end.

Notation "x <- m ;; k" := (bind m (fun x => k))
  (at level 61, m at next level, right associativity).

(** [[f(x) for x in l]]: the first exception stops the comprehension. *)
Fixpoint map_exc {A B : Type} (f : A -> exc B) (l : list A) : exc (list B) :=
  match l with
  | [] => Ok []
  | x :: l' => y <- f x ;; ys <- map_exc f l' ;; Ok (y :: ys)
  end.

(** ** Dynamic operations on decoded JSON *)

Fixpoint lookup (k : string) (kvs : list (string * json)) : option json :=
  match kvs with
  | [] => None
  | (k', v) :: kvs' => if (k =? k')%string then Some v else lookup k kvs'
  end.

(** [data[k]] with a string key: a dict answers or raises [KeyError]; every
    other JSON value raises [TypeError]. *)
Definition subscript (data : json) (k : string) : exc json :=
  match data with
  | JObj kvs =>
      match lookup k kvs with
      | Some v => Ok v
      | None => Raise (KeyError k)
      end
  | _ => Raise TypeError
  end.

(** [data.get(k, default)]: only a dict has the method. *)
Definition get (data : json) (k : string) (default : json) : exc json :=
  match data with
  | JObj kvs =>
      match lookup k kvs with
      | Some v => Ok v
      | None => Ok default
      end
  | _ => Raise AttributeError
  end.

Fixpoint chars (s : string) : list json :=
  match s with
  | EmptyString => []
  | String c s' => JStr (String c EmptyString) :: chars s'
  end.

(** [for item in v]: a list yields its elements, a dict its keys, a string
    its characters; [None], booleans and numbers are not iterable. *)
Definition iterate (v : json) : exc (list json) :=
  match v with
  | JArr l => Ok l
  | JObj kvs => Ok (map (fun kv => JStr (fst kv)) kvs)
  | JStr s => Ok (chars s)
  | _ => Raise TypeError
  end.

(** [v.lower()]: only a string has the method. *)
Definition lower_method (v : json) : exc string :=
  match v with
  | JStr s => Ok (lower s)
  | _ => Raise AttributeError
  end.

(** ** TodoItem *)

Record TodoItem : Type := mkTodoItem {
  id : option Z;
  task : string;
  completed : bool;
  priority : string;
  created_at : string;
  due_date : option string;
  completed_at : option string
}.

(** [TodoItem.__init__], with the clock reading [now]. *)
Definition TodoItem_init (now task priority : string)
    (due_date : option string) : TodoItem :=
  {| id := None;
     task := task;
     completed := false;
     priority := lower priority;
     created_at := now;
     due_date := due_date;
     completed_at := None |}.

Definition set_id (v : option Z) (t : TodoItem) : TodoItem :=
  {| id := v; task := task t; completed := completed t;
     priority := priority t; created_at := created_at t;
     due_date := due_date t; completed_at := completed_at t |}.

Definition set_task (v : string) (t : TodoItem) : TodoItem :=
  {| id := id t; task := v; completed := completed t;
     priority := priority t; created_at := created_at t;
     due_date := due_date t; completed_at := completed_at t |}.

Definition set_completed (v : bool) (t : TodoItem) : TodoItem :=
  {| id := id t; task := task t; completed := v;
     priority := priority t; created_at := created_at t;
     due_date := due_date t; completed_at := completed_at t |}.

Definition set_priority (v : string) (t : TodoItem) : TodoItem :=
  {| id := id t; task := task t; completed := completed t;
     priority := v; created_at := created_at t;
     due_date := due_date t; completed_at := completed_at t |}.

Definition set_due_date (v : option string) (t : TodoItem) : TodoItem :=
  {| id := id t; task := task t; completed := completed t;
     priority := priority t; created_at := created_at t;
     due_date := v; completed_at := completed_at t |}.

Definition set_completed_at (v : option string) (t : TodoItem) : TodoItem :=
  {| id := id t; task := task t; completed := completed t;
     priority := priority t; created_at := created_at t;
     due_date := due_date t; completed_at := v |}.

Definition json_of_int (o : option Z) : json :=
  match o with
  | Some z => JInt z
  | None => JNull
  end.

Definition json_of_str (o : option string) : json :=
  match o with
  | Some s => JStr s
  | None => JNull
  end.

(** [TodoItem.to_dict]. *)
Definition to_dict (t : TodoItem) : json :=
  JObj [ ("id", json_of_int (id t));
         ("task", JStr (task t));
         ("completed", JBool (completed t));
         ("priority", JStr (priority t));
         ("created_at", JStr (created_at t));
         ("due_date", json_of_str (due_date t));
         ("completed_at", json_of_str (completed_at t)) ].

(** What [TodoItem.from_dict] builds before any typing: the attribute
    values are whatever the document holds, except [priority], which
    [__init__] has already passed through [lower]. *)
Record RawItem : Type := mkRawItem {
  raw_id : json;
  raw_task : json;
  raw_completed : json;
  raw_priority : string;
  raw_created_at : json;
  raw_due_date : json;
  raw_completed_at : json
}.

(** [TodoItem.from_dict], in the evaluation order of the source: the three
    constructor arguments are looked up, [__init__] lower-cases the
    priority, then the four remaining keys are looked up. *)
Definition from_dict (data : json) : exc RawItem :=
  t <- subscript data "task" ;;
  p <- subscript data "priority" ;;
  d <- subscript data "due_date" ;;
  p' <- lower_method p ;;
  i <- subscript data "id" ;;
  c <- subscript data "completed" ;;
  ca <- subscript data "created_at" ;;
  cd <- subscript data "completed_at" ;;
  Ok {| raw_id := i; raw_task := t; raw_completed := c; raw_priority := p';
        raw_created_at := ca; raw_due_date := d; raw_completed_at := cd |}.

(** Reading decoded values at the types the annotations of the source
    declare. *)
Definition as_int (v : json) : option Z :=
  match v with JInt z => Some z | _ => None end.

Definition as_str (v : json) : option string :=
  match v with JStr s => Some s | _ => None end.

Definition as_bool (v : json) : option bool :=
  match v with JBool b => Some b | _ => None end.

Definition as_opt_int (v : json) : option (option Z) :=
  match v with JNull => Some None | JInt z => Some (Some z) | _ => None end.

Definition as_opt_str (v : json) : option (option string) :=
  match v with JNull => Some None | JStr s => Some (Some s) | _ => None end.

Definition typed_item (r : RawItem) : option TodoItem :=
  match as_opt_int (raw_id r), as_str (raw_task r),
        as_bool (raw_completed r), as_str (raw_created_at r),
        as_opt_str (raw_due_date r), as_opt_str (raw_completed_at r) with
  | Some i, Some t, Some c, Some ca, Some d, Some cd =>
      Some {| id := i; task := t; completed := c;
              priority := raw_priority r; created_at := ca;
              due_date := d; completed_at := cd |}
  | _, _, _, _, _, _ => None
  end.

Fixpoint typed_items (l : list RawItem) : option (list TodoItem) :=
  match l with
  | [] => Some []
  | r :: l' =>
      match typed_item r, typed_items l' with
      | Some t, Some ts => Some (t :: ts)
      | _, _ => None
      end
  end.

(** ** TodoManager *)

(** The manager's attributes, together with the file at [self.filename]
    and the number of times [save_todos] has rewritten it. *)
Record TodoManager : Type := mkTodoManager {
  todos : list TodoItem;
  next_id : Z;
  file : file_state;
  saves : nat
}.

Definition set_todos (l : list TodoItem) (m : TodoManager) : TodoManager :=
  {| todos := l; next_id := next_id m; file := file m; saves := saves m |}.

(** The document [save_todos] dumps. *)
Definition dump (m : TodoManager) : json :=
  JObj [ ("todos", JArr (map to_dict (todos m)));
         ("next_id", JInt (next_id m)) ].

(** [TodoManager.save_todos]: the file is overwritten with the dump. *)
Definition save_todos (m : TodoManager) : TodoManager :=
  {| todos := todos m; next_id := next_id m;
     file := Document (dump m); saves := S (saves m) |}.

(** Outcome of [load_todos].  [Untyped] stands for the runs in which Python
    finishes the load without an exception but has stored a value the
    typed records above cannot hold (a number as [task], a string as
    [next_id], ...): nothing is stated about those runs. *)
Inductive loaded : Type :=
| Loaded (m : TodoManager)
| Raised (e : exn)
| Untyped.

(** The [try] body of [load_todos] on a decoded document: both attributes
    are computed, dynamically, in the order of the source. *)
Definition load_document (data : json) : exc (list RawItem * json) :=
  v <- get data "todos" (JArr []) ;;
  items <- iterate v ;;
  raws <- map_exc from_dict items ;;
  n <- get data "next_id" (JInt 1) ;;
  Ok (raws, n).

(** [TodoManager.load_todos].  Only [JSONDecodeError] (and
    [FileNotFoundError]) are caught; any other exception leaves the
    method. *)
Definition load_todos (m : TodoManager) : loaded :=
  match file m with
  | Absent => Loaded m
  | Undecodable =>
      Loaded {| todos := []; next_id := 1; file := file m; saves := saves m |}
  | Document data =>
      match load_document data with
      | Raise e => Raised e
      | Ok (raws, n) =>
          match typed_items raws, as_int n with
          | Some l, Some z =>
              Loaded {| todos := l; next_id := z;
                        file := file m; saves := saves m |}
          | _, _ => Untyped
          end
      end
  end.

(** [TodoManager.__init__] on a disk where [self.filename] is [f]. *)
Definition TodoManager_init (f : file_state) : loaded :=
  load_todos {| todos := []; next_id := 1; file := f; saves := 0 |}.

(** [TodoManager.add_todo], with the clock reading [now]; the value
    returned is [todo.id]. *)
Definition add_todo (now task priority : string) (due_date : option string)
    (m : TodoManager) : Z * TodoManager :=
  let priority := if negb (str_in priority priorities)
                  then "medium" else priority in
  let todo := TodoItem_init now task priority due_date in
  let todo := set_id (Some (next_id m)) todo in
  (next_id m,
   save_todos {| todos := todos m ++ [todo]; next_id := next_id m + 1;
                 file := file m; saves := saves m |}).

(** [todo.id == todo_id]. *)
Definition has_id (todo_id : Z) (t : TodoItem) : bool :=
  match id t with
  | Some i => i =? todo_id
  | None => false
  end.

(** The loop of [remove_todo]: the first record with the id is deleted. *)
Fixpoint delete_first (todo_id : Z) (l : list TodoItem)
    : option (list TodoItem) :=
  match l with
  | [] => None
  | t :: l' =>
      if has_id todo_id t then Some l'
      else option_map (cons t) (delete_first todo_id l')
  end.

(** The loop shared by [complete_todo], [uncomplete_todo] and
    [update_todo]: the first record with the id is mutated in place. *)
Fixpoint modify_first (f : TodoItem -> TodoItem) (todo_id : Z)
    (l : list TodoItem) : option (list TodoItem) :=
  match l with
  | [] => None
  | t :: l' =>
      if has_id todo_id t then Some (f t :: l')
      else option_map (cons t) (modify_first f todo_id l')
  end.

(** After the loop: on a hit the store is saved and [True] returned. *)
Definition commit (r : option (list TodoItem)) (m : TodoManager)
    : bool * TodoManager :=
  match r with
  | Some l => (true, save_todos (set_todos l m))
  | None => (false, m)
  end.

(** [TodoManager.remove_todo]. *)
Definition remove_todo (todo_id : Z) (m : TodoManager) : bool * TodoManager :=
  commit (delete_first todo_id (todos m)) m.

(** [TodoManager.complete_todo], with the clock reading [now]. *)
Definition complete_todo (now : string) (todo_id : Z) (m : TodoManager)
    : bool * TodoManager :=
  commit (modify_first
            (fun t => set_completed_at (Some now) (set_completed true t))
            todo_id (todos m)) m.

(** [TodoManager.uncomplete_todo]. *)
Definition uncomplete_todo (todo_id : Z) (m : TodoManager)
    : bool * TodoManager :=
  commit (modify_first
            (fun t => set_completed_at None (set_completed false t))
            todo_id (todos m)) m.

(** The body of [update_todo] on the record found. *)
Definition apply_update (task priority due_date : option string)
    (t : TodoItem) : TodoItem :=
  let t := match task with
           | Some s => if truthy task then set_task s t else t
           | None => t
           end in
  let t := match priority with
           | Some p =>
               if truthy priority && str_in (lower p) priorities
               then set_priority (lower p) t else t
           | None => t
           end in
  match due_date with
  | Some d => set_due_date (Some d) t
  | None => t
  end.

(** [TodoManager.update_todo]. *)
Definition update_todo (todo_id : Z) (task priority due_date : option string)
    (m : TodoManager) : bool * TodoManager :=
  commit (modify_first (apply_update task priority due_date)
            todo_id (todos m)) m.

(** ** Listing *)

(** The sort key [(x.completed, x.priority != "high", x.priority != "medium")]. *)
Definition sort_key (x : TodoItem) : bool * bool * bool :=
  (completed x,
   negb (priority x =? "high")%string,
   negb (priority x =? "medium")%string).

(** [a < b] on booleans: [False < True]. *)
Definition bool_lt (a b : bool) : bool := negb a && b.

(** [k1 < k2] on the key tuples: the first differing component decides. *)
Definition key_lt (k1 k2 : bool * bool * bool) : bool :=
  let '(a1, b1, c1) := k1 in
  let '(a2, b2, c2) := k2 in
  if negb (Bool.eqb a1 a2) then bool_lt a1 a2
  else if negb (Bool.eqb b1 b2) then bool_lt b1 b2
  else bool_lt c1 c2.

(** [sorted(l, key=key)].  Python's sort is stable and compares keys with
    [<] only; the stable sort of a list is unique, and it is computed here
    by insertion: the elements are taken in list order, and each is put
    into the sorted prefix in front of the first element whose key is
    strictly greater than its own. *)
Section Sorted.
Context {A K : Type} (key : A -> K) (lt : K -> K -> bool).

Fixpoint insert (x : A) (l : list A) : list A :=
  match l with
  | [] => [x]
  | y :: l' => if lt (key x) (key y) then x :: y :: l'
               else y :: insert x l'
  end.

Definition sorted (l : list A) : list A :=
  fold_left (fun acc x => insert x acc) l [].

(** [x] may stand before [y]: the key of [y] is not below that of [x]. *)
Definition in_order (x y : A) : Prop := lt (key y) (key x) = false.
End Sorted.

(** The two filters of [get_todos]. *)
Definition select (show_completed : bool) (priority_filter : option string)
    (l : list TodoItem) : list TodoItem :=
  let l := if negb show_completed
           then filter (fun todo => negb (completed todo)) l else l in
  match priority_filter with
  | Some p =>
      if truthy priority_filter
      then filter (fun todo => (priority todo =? lower p)%string) l else l
  | None => l
  end.

(** [TodoManager.get_todos]. *)
Definition get_todos (show_completed : bool) (priority_filter : option string)
    (m : TodoManager) : list TodoItem :=
  sorted sort_key key_lt (select show_completed priority_filter (todos m)).

(** ** Sessions: sequences of commands *)

Inductive command : Type :=
| Add (now task priority : string) (due_date : option string)
| Remove (todo_id : Z)
| Complete (now : string) (todo_id : Z)
| Uncomplete (todo_id : Z)
| Update (todo_id : Z) (task priority due_date : option string).

Inductive reply : Type :=
| NewId (i : Z)
| Found (b : bool).

Definition exec (c : command) (m : TodoManager) : reply * TodoManager :=
  match c with
  | Add now t p d => let (i, m') := add_todo now t p d m in (NewId i, m')
  | Remove i => let (b, m') := remove_todo i m in (Found b, m')
  | Complete now i => let (b, m') := complete_todo now i m in (Found b, m')
  | Uncomplete i => let (b, m') := uncomplete_todo i m in (Found b, m')
  | Update i t p d => let (b, m') := update_todo i t p d m in (Found b, m')
  end.

Fixpoint run (cs : list command) (m : TodoManager)
    : list reply * TodoManager :=
  match cs with
  | [] => ([], m)
  | c :: cs' =>
      let (r, m1) := exec c m in
      let (rs, m2) := run cs' m1 in
      (r :: rs, m2)
  end.

(** The ids handed out by the [add_todo] calls of a session, in order. *)
Fixpoint new_ids (rs : list reply) : list Z :=
  match rs with
  | [] => []
  | NewId i :: rs' => i :: new_ids rs'
  | Found _ :: rs' => new_ids rs'
  end.

(** The manager as [__init__] sets it up before [load_todos] runs. *)
Definition fresh (f : file_state) : TodoManager :=
  {| todos := []; next_id := 1; file := f; saves := 0 |}.

(** The stores a program can hold: what [__init__] loaded, and whatever
    the commands make of it. *)
Inductive reachable : TodoManager -> Prop :=
| reach_init (f : file_state) (m : TodoManager) :
    TodoManager_init f = Loaded m -> reachable m
| reach_exec (c : command) (m : TodoManager) :
    reachable m -> reachable (snd (exec c m)).

(** Sample stores: one record, with id 1 ... *)
Definition one_record : TodoManager :=
  snd (add_todo "2024-01-01 09:00:00" "Buy milk" "high" (Some "2024-01-01")
         (fresh Absent)).

(** ... and four records, low, high, medium, high, the second of them
    completed. *)
Definition four_records : TodoManager :=
  snd (run [Add "2024-01-01 09:00:00" "Water plants" "low" None;
            Add "2024-01-01 09:01:00" "Buy milk" "high" None;
            Add "2024-01-01 09:02:00" "Call mom" "medium" None;
            Add "2024-01-01 09:03:00" "Pay rent" "high" None;
            Complete "2024-01-01 09:04:00" 2]
         (fresh Absent)).

(** ** The properties, in the words of the specification *)

(** A record is present under an id. *)
Definition present (todo_id : Z) (m : TodoManager) : Prop :=
  exists t, In t (todos m) /\ id t = Some todo_id.

(** [l'] is [l] with [x], its first record under the id, replaced by
    [x']. *)
Definition replaces_first (todo_id : Z) (l l' : list TodoItem)
    (x x' : TodoItem) : Prop :=
  exists l1 l2,
    l = l1 ++ x :: l2 /\ l' = l1 ++ x' :: l2
    /\ id x = Some todo_id
    /\ (forall u, In u l1 -> has_id todo_id u = false).

(** [completed_at] is set exactly on the completed records. *)
Definition stamped (t : TodoItem) : Prop :=
  completed_at t <> None <-> completed t = true.

(** The priority of a record is its own lower case. *)
Definition lower_stable (t : TodoItem) : Prop :=
  lower (priority t) = priority t.

(** The raw record [from_dict] reads back from [to_dict]. *)
Definition raw_of (t : TodoItem) : RawItem :=
  {| raw_id := json_of_int (id t);
     raw_task := JStr (task t);
     raw_completed := JBool (completed t);
     raw_priority := lower (priority t);
     raw_created_at := JStr (created_at t);
     raw_due_date := json_of_str (due_date t);
     raw_completed_at := json_of_str (completed_at t) |}.

(** Listing order: pending before completed, then high before medium
    before low.  A priority that is neither high nor medium ranks with
    low. *)
Definition priority_rank (p : string) : nat :=
  if (p =? "high")%string then 0%nat
  else if (p =? "medium")%string then 1%nat
  else 2%nat.

Definition listed_before (a b : TodoItem) : Prop :=
  (completed a = false /\ completed b = true)
  \/ (completed a = completed b
      /\ (priority_rank (priority a) <= priority_rank (priority b))%nat).

(** Equal on both keys. *)
Definition tied (a b : TodoItem) : bool :=
  Bool.eqb (completed a) (completed b)
  && Nat.eqb (priority_rank (priority a)) (priority_rank (priority b)).

(** ** Printed text

    What the program prints is not confined to code points below 256 (the
    status marks, the upper case of some letters): a printed string is
    the list of its code points. *)
Definition text : Type := list N.

Definition codes (s : string) : text :=
  map N_of_ascii (list_ascii_of_string s).

(** [str(z)] for an integer. *)
Definition str_of_int (z : Z) : text :=
  codes (NilZero.string_of_int (Z.to_int z)).

(** The format specification [:<width]: left-aligned, padded with
    spaces up to [width] code points, never cut. *)
Definition ljust (width : nat) (t : text) : text :=
  t ++ repeat 32%N (width - List.length t).

(** [str.upper] on one code point below 256: the small letters move down
    by 32, except the division sign 247; sharp s gives two capitals, y
    with diaeresis and the micro sign leave the range. *)
Definition upper_char (c : ascii) : text :=
  let n := N_of_ascii c in
  if ((97 <=? n) && (n <=? 122))%N
     || ((224 <=? n) && (n <=? 254) && negb (n =? 247))%N
  then [(n - 32)%N]
  else if (n =? 223)%N then [83%N; 83%N]
  else if (n =? 255)%N then [376%N]
  else if (n =? 181)%N then [924%N]
  else [n].

Definition upper (s : string) : text :=
  flat_map upper_char (list_ascii_of_string s).

(** [str.isspace] on one code point below 256, and [str.strip]. *)
Definition is_space (c : ascii) : bool :=
  let n := N_of_ascii c in
  (((9 <=? n) && (n <=? 13)) || ((28 <=? n) && (n <=? 32))
   || (n =? 133) || (n =? 160))%N.

Fixpoint lstrip (s : string) : string :=
  match s with
  | EmptyString => EmptyString
  | String c s' => if is_space c then lstrip s' else s
  end.

Fixpoint rstrip (s : string) : string :=
  match s with
  | EmptyString => EmptyString
  | String c s' =>
      match rstrip s' with
      | EmptyString => if is_space c then EmptyString
                       else String c EmptyString
      | r => String c r
      end
  end.

Definition strip (s : string) : string := rstrip (lstrip s).

(** A string that does not begin with white space. *)
Definition starts_clean (s : string) : Prop :=
  match s with
  | EmptyString => True
  | String c _ => is_space c = false
  end.

(** ** display_todos *)

(** ["=" * 80]. *)
Definition rule : text := repeat 61%N 80.

Definition header : text :=
  ljust 4 (codes "ID") ++ [32%N] ++ ljust 10 (codes "Status") ++ [32%N]
  ++ ljust 10 (codes "Priority") ++ [32%N] ++ ljust 30 (codes "Task")
  ++ [32%N] ++ ljust 15 (codes "Due Date").

(** The check mark and the circle are the code points 10003 and 9675. *)
Definition status (todo : TodoItem) : text :=
  if completed todo then 10003%N :: codes " Done"
  else 9675%N :: codes " Pending".

Definition priority_display (todo : TodoItem) : text :=
  codes "[" ++ upper (priority todo) ++ codes "]".

Definition due_display (todo : TodoItem) : text :=
  match due_date todo with
  | Some d => if truthy (due_date todo) then codes d
              else codes "No due date"
  | None => codes "No due date"
  end.

Definition task_display (todo : TodoItem) : string :=
  if (30 <? String.length (task todo))%nat
  then substring 0 30 (task todo) ++ "..."
  else task todo.

(** One line of the table.  Formatting the id with [:<4] raises
    [TypeError] when the id is [None]. *)
Definition display_row (todo : TodoItem) : exc text :=
  match id todo with
  | None => Raise TypeError
  | Some i =>
      Ok (ljust 4 (str_of_int i) ++ [32%N] ++ ljust 10 (status todo)
          ++ [32%N] ++ ljust 10 (priority_display todo) ++ [32%N]
          ++ ljust 30 (codes (task_display todo)) ++ [32%N]
          ++ ljust 15 (due_display todo))
  end.

(** The loop over the records: the lines printed, and the exception that
    stopped the loop, if any. *)
Fixpoint display_rows (l : list TodoItem) : list text * option exn :=
  match l with
  | [] => ([], None)
  | todo :: l' =>
      match display_row todo with
      | Raise e => ([], Some e)
      | Ok line =>
          let (lines, e) := display_rows l' in (line :: lines, e)
      end
  end.

(** [display_todos]: the strings passed to [print], in order, and the
    exception that left the function, if any. *)
Definition display_todos (l : list TodoItem) : list text * option exn :=
  match l with
  | [] => ([codes "No todos found."], None)
  | _ :: _ =>
      let (lines, e) := display_rows l in
      ([10%N :: rule; header; rule] ++ lines
       ++ match e with None => [rule] | Some _ => [] end,
       e)
  end.

(** ** main

    A run of the program reads lines from the terminal and prints.  The
    session holds the lines not yet read, the number of lines read, what
    has been written (each [print], and the prompt of each [input]) and
    the manager. *)
Inductive output : Type :=
| Print (t : text)
| Ask (prompt : text).

Record session : Type := mkSession {
  stdin : list string;
  consumed : nat;
  stdout : list output;
  manager : TodoManager
}.

(** What can end a run before [break]: an exception of the store or of
    the display, or the end of the input at an [input] call. *)
Inductive failure : Type :=
| Uncaught (e : exn)
| EOFError.

Inductive result (A : Type) : Type :=
| Returns (a : A) (s : session)
| Raises (f : failure) (s : session)
| OutOfFuel.
Arguments Returns {A} a s.
Arguments Raises {A} f s.
Arguments OutOfFuel {A}.

Definition prog (A : Type) : Type := session -> result A.

Definition ret {A : Type} (a : A) : prog A := fun s => Returns a s.

Definition then_ {A B : Type} (p : prog A) (k : A -> prog B) : prog B :=
  fun s =>
    match p s with
    | Returns a s' => k a s'
    | Raises f s' => Raises f s'
    | OutOfFuel => OutOfFuel
    end.

Notation "'let*' x ':=' p 'in' k" := (then_ p (fun x => k))
  (at level 10, x name, p at level 100, k at level 200).

Definition write (o : output) (s : session) : session :=
  {| stdin := stdin s; consumed := consumed s;
     stdout := stdout s ++ [o]; manager := manager s |}.

(** [print(t)]. *)
Definition print (t : text) : prog unit :=
  fun s => Returns tt (write (Print t) s).

Fixpoint print_all (ts : list text) : prog unit :=
  match ts with
  | [] => ret tt
  | t :: ts' => let* _ := print t in print_all ts'
  end.

(** [input(prompt)]: the prompt is written, then a line is read; with no
    line left the call raises [EOFError]. *)
Definition input (prompt : text) : prog string :=
  fun s =>
    match stdin s with
    | [] => Raises EOFError (write (Ask prompt) s)
    | line :: rest =>
        Returns line
          {| stdin := rest; consumed := S (consumed s);
             stdout := stdout s ++ [Ask prompt]; manager := manager s |}
    end.

(** A method call on the manager. *)
Definition call {A : Type} (method : TodoManager -> A * TodoManager)
    : prog A :=
  fun s =>
    let (a, m) := method (manager s) in
    Returns a {| stdin := stdin s; consumed := consumed s;
                 stdout := stdout s; manager := m |}.

(** [display_todos(l)] inside a run. *)
Definition show (l : list TodoItem) : prog unit :=
  fun s =>
    let (lines, e) := display_todos l in
    let s' := {| stdin := stdin s; consumed := consumed s;
                 stdout := stdout s ++ map Print lines;
                 manager := manager s |} in
    match e with
    | None => Returns tt s'
    | Some e => Raises (Uncaught e) s'
    end.

(** [s.strip() or None]. *)
Definition nonblank (s : string) : option string :=
  if (strip s =? "")%string then None else Some (strip s).

(** The marks in front of the messages: memo 128221, white heavy check
    mark 9989, cross mark 10060, waving hand 128075. *)
Definition menu : list text :=
  [ 10%N :: 128221%N :: codes " To-Do List Manager";
    codes "1. Add todo";
    codes "2. View todos";
    codes "3. Complete todo";
    codes "4. Remove todo";
    codes "5. Update todo";
    codes "6. View pending todos only";
    codes "7. Filter by priority";
    codes "8. Exit" ].

Definition ok_mark (msg : string) : text := 9989%N :: codes msg.
Definition no_mark (msg : string) : text := 10060%N :: codes msg.

Section Menu.
(** [int(line)], [None] standing for [ValueError]; and the clock, as it
    reads after a given number of lines have been typed. *)
Variable int : string -> option Z.
Variable clock : nat -> string.

Definition read_clock : prog string :=
  fun s => Returns (clock (consumed s)) s.

(** The branches of the loop body; each returns whether the loop goes
    on. *)
Definition choice_add : prog bool :=
  let* line := input (codes "Enter task: ") in
  let task := strip line in
  if (task =? "")%string then
    let* _ := print (codes "Task cannot be empty!") in ret true
  else
    let* line := input (codes
      "Enter priority (low/medium/high) [default: medium]: ") in
    let priority :=
      if (strip line =? "")%string then "medium" else strip line in
    let* line := input (codes "Enter due date (YYYY-MM-DD) [optional]: ") in
    let due_date := nonblank line in
    let* t := read_clock in
    let* todo_id := call (add_todo t task priority due_date) in
    let* _ := print (ok_mark " Todo added with ID: " ++ str_of_int todo_id) in
    ret true.

Definition choice_complete : prog bool :=
  let* line := input (codes "Enter todo ID to complete: ") in
  match int line with
  | Some todo_id =>
      let* t := read_clock in
      let* found := call (complete_todo t todo_id) in
      let* _ := print (if found : bool
                       then ok_mark " Todo marked as completed!"
                       else no_mark " Todo not found!") in
      ret true
  | None =>
      let* _ := print (no_mark " Please enter a valid ID number!") in
      ret true
  end.

Definition choice_remove : prog bool :=
  let* line := input (codes "Enter todo ID to remove: ") in
  match int line with
  | Some todo_id =>
      let* found := call (remove_todo todo_id) in
      let* _ := print (if found : bool
                       then ok_mark " Todo removed!"
                       else no_mark " Todo not found!") in
      ret true
  | None =>
      let* _ := print (no_mark " Please enter a valid ID number!") in
      ret true
  end.

Definition choice_update : prog bool :=
  let* line := input (codes "Enter todo ID to update: ") in
  match int line with
  | Some todo_id =>
      let* line := input (codes
        "Enter new task (press Enter to keep current): ") in
      let task := nonblank line in
      let* line := input (codes
        "Enter new priority (low/medium/high, press Enter to keep current): ")
      in
      let priority := nonblank line in
      let* line := input (codes
        "Enter new due date (YYYY-MM-DD, press Enter to keep current): ") in
      let due_date := nonblank line in
      let* found := call (update_todo todo_id task priority due_date) in
      let* _ := print (if found : bool
                       then ok_mark " Todo updated!"
                       else no_mark " Todo not found!") in
      ret true
  | None =>
      let* _ := print (no_mark " Please enter a valid ID number!") in
      ret true
  end.

Definition choice_view (show_completed : bool) : prog bool :=
  let* todos := call (fun m => (get_todos show_completed None m, m)) in
  let* _ := show todos in
  ret true.

Definition choice_filter : prog bool :=
  let* line := input (codes
    "Enter priority to filter by (low/medium/high): ") in
  let priority := lower (strip line) in
  if str_in priority priorities then
    let* todos := call (fun m => (get_todos true (Some priority) m, m)) in
    let* _ := show todos in
    ret true
  else
    let* _ := print (no_mark " Invalid priority! Use low, medium, or high.") in
    ret true.

(** The body of [while True]. *)
Definition iteration : prog bool :=
  let* _ := print_all menu in
  let* line := input (10%N :: codes "Enter your choice (1-8): ") in
  let choice := strip line in
  if (choice =? "1")%string then choice_add
  else if (choice =? "2")%string then choice_view true
  else if (choice =? "3")%string then choice_complete
  else if (choice =? "4")%string then choice_remove
  else if (choice =? "5")%string then choice_update
  else if (choice =? "6")%string then choice_view false
  else if (choice =? "7")%string then choice_filter
  else if (choice =? "8")%string then
    let* _ := print (128075%N :: codes " Goodbye!") in ret false
  else
    let* _ := print (no_mark " Invalid choice! Please enter 1-8.") in
    ret true.

(** The loop, cut after [fuel] rounds. *)
Fixpoint loop (fuel : nat) (s : session) : result unit :=
  match fuel with
  | O => OutOfFuel
  | S fuel' =>
      match iteration s with
      | Returns true s' => loop fuel' s'
      | Returns false s' => Returns tt s'
      | Raises f s' => Raises f s'
      | OutOfFuel => OutOfFuel
      end
  end.

(** [main] once the manager is built: every round reads a line, so one
    round more than there are lines is fuel enough. *)
Definition main_with (m : TodoManager) (lines : list string) : result unit :=
  loop (S (List.length lines))
    {| stdin := lines; consumed := 0; stdout := []; manager := m |}.

(** [main] on a disk where the file is [f]; [None] when the load is
    outside the typed records. *)
Definition main (f : file_state) (lines : list string)
    : option (result unit) :=
  match TodoManager_init f with
  | Loaded m => Some (main_with m lines)
  | Raised e =>
      Some (Raises (Uncaught e)
              {| stdin := lines; consumed := 0; stdout := [];
                 manager := fresh f |})
  | Untyped => None
  end.
End Menu.

(** The session a run ends in, if the fuel sufficed. *)
Definition final {A : Type} (r : result A) : option session :=
  match r with
  | Returns _ s => Some s
  | Raises _ s => Some s
  | OutOfFuel => None
  end.

(** A string as [strip] leaves it, and not empty. *)
Definition trimmed (s : string) : Prop := s <> "" /\ strip s = s.

Definition trimmed_opt (o : option string) : Prop :=
  match o with
  | Some s => trimmed s
  | None => True
  end.

(** The commands the menu can issue: a description, a priority or a due
    date that reaches the manager is trimmed and not empty. *)
Definition menu_command (c : command) : Prop :=
  match c with
  | Add _ t p d => trimmed t /\ trimmed p /\ trimmed_opt d
  | Update _ t p d => trimmed_opt t /\ trimmed_opt p /\ trimmed_opt d
  | _ => True
  end.

(** From session [s] to session [s']: the manager has gone through
    commands of the menu, and no line has come back to the input. *)
Definition steps (s s' : session) : Prop :=
  exists cs,
    Forall menu_command cs
    /\ manager s' = snd (run cs (manager s))
    /\ (List.length (stdin s') <= List.length (stdin s))%nat.

(** A piece of the program that only ever does that. *)
Definition tame {A : Type} (p : prog A) : Prop :=
  forall s,
    match p s with
    | Returns _ s' => steps s s'
    | Raises _ s' => steps s s'
    | OutOfFuel => False
    end.

(** Every record has an id. *)
Definition ids_set (l : list TodoItem) : Prop :=
  Forall (fun t => id t <> None) l.

(** A piece of the program that, on a store where every record has an
    id, keeps it so and can only fail for want of input. *)
Definition safe {A : Type} (p : prog A) : Prop :=
  forall s,
    ids_set (todos (manager s)) ->
    match p s with
    | Returns _ s' => ids_set (todos (manager s'))
    | Raises f _ => f = EOFError
    | OutOfFuel => False
    end.

(** An id that [add_todo] can have handed out while the counter was
    below [n]. *)
Definition issued (n : Z) (o : option Z) : Prop :=
  exists i, o = Some i /\ 1 <= i < n.

(** ** Basic facts *)

Lemma has_id_true (i : Z) (t : TodoItem) :
  has_id i t = true <-> id t = Some i.
Proof.
  unfold has_id. destruct (id t) as [j|].
  - rewrite Z.eqb_eq. split; congruence.
  - split; discriminate.
Qed.

Lemma has_id_absent (i : Z) (l : list TodoItem) :
  (forall t, In t l -> id t <> Some i) ->
  forall t, In t l -> has_id i t = false.
Proof.
  intros H t Ht. destruct (has_id i t) eqn:E; trivial.
  apply has_id_true in E. now elim (H t Ht).
Qed.

Lemma delete_first_absent (i : Z) (l : list TodoItem) :
  (forall t, In t l -> id t <> Some i) -> delete_first i l = None.
Proof.
  induction l as [|t l IH]; intros H; simpl; trivial.
  rewrite (has_id_absent i (t :: l) H t) by now left.
  rewrite IH; trivial. intros u Hu. apply H. now right.
Qed.

Lemma modify_first_absent (f : TodoItem -> TodoItem) (i : Z)
    (l : list TodoItem) :
  (forall t, In t l -> id t <> Some i) -> modify_first f i l = None.
Proof.
  induction l as [|t l IH]; intros H; simpl; trivial.
  rewrite (has_id_absent i (t :: l) H t) by now left.
  rewrite IH; trivial. intros u Hu. apply H. now right.
Qed.

Lemma absent_all (i : Z) (m : TodoManager) :
  ~ present i m -> forall t, In t (todos m) -> id t <> Some i.
Proof.
  intros H t Ht E. apply H. now exists t.
Qed.

(** On a hit, the loop returns the list with the first match replaced. *)
Lemma modify_first_present (f : TodoItem -> TodoItem) (i : Z)
    (l : list TodoItem) :
  (exists t, In t l /\ id t = Some i) ->
  exists l1 t l2,
    l = l1 ++ t :: l2 /\ id t = Some i
    /\ (forall u, In u l1 -> has_id i u = false)
    /\ modify_first f i l = Some (l1 ++ f t :: l2).
Proof.
  induction l as [|a l IH]; intros [t [Hin Hid]].
  - destruct Hin.
  - simpl. destruct (has_id i a) eqn:E.
    + exists [], a, l. repeat split; trivial.
      * now apply has_id_true.
      * intros u [].
    + destruct Hin as [->|Hin].
      * apply has_id_true in Hid. congruence.
      * destruct IH as (l1 & t' & l2 & -> & Hid' & Hl1 & ->).
        { now exists t. }
        exists (a :: l1), t', l2. repeat split; trivial.
        intros u [<-|Hu]; auto.
Qed.

Lemma modify_first_id (i : Z) (l : list TodoItem) :
  (exists t, In t l /\ id t = Some i) ->
  modify_first (fun t => t) i l = Some l.
Proof.
  intros H. destruct (modify_first_present (fun t => t) i l H)
    as (l1 & t & l2 & -> & _ & _ & ->). reflexivity.
Qed.

(** ** Operations on a missing id *)

(** C6.  When no record of the store carries the id, each of
    [remove_todo], [complete_todo], [uncomplete_todo] and [update_todo]
    returns [False] and hands back the very same state: the collection,
    [next_id], the file and the count of saves are all untouched, so
    nothing was persisted; the functions are total, so nothing was
    raised. *)
Theorem missing_id_is_reported (i : Z) (m : TodoManager)
    (now : string) (t p d : option string) :
  ~ present i m ->
  remove_todo i m = (false, m)
  /\ complete_todo now i m = (false, m)
  /\ uncomplete_todo i m = (false, m)
  /\ update_todo i t p d m = (false, m).
Proof.
  intros H. pose proof (absent_all i m H) as Ha.
  unfold remove_todo, complete_todo, uncomplete_todo, update_todo.
  rewrite delete_first_absent by exact Ha.
  rewrite !modify_first_absent by exact Ha.
  repeat split.
Qed.

Lemma missing_id_is_reported_witness :
  remove_todo 2 one_record = (false, one_record)
  /\ complete_todo "2024-01-02 10:00:00" 2 one_record = (false, one_record)
  /\ uncomplete_todo 2 one_record = (false, one_record)
  /\ update_todo 2 (Some "Buy bread") None None one_record
     = (false, one_record).
Proof.
  apply (missing_id_is_reported 2 one_record).
  intros [t [Hin Hid]]. simpl in Hin. destruct Hin as [<-|[]].
  discriminate Hid.
Defined.

(** ** Priority on add *)

Lemma str_in_In (x : string) (l : list string) :
  str_in x l = true <-> In x l.
Proof.
  unfold str_in. rewrite existsb_exists. split.
  - intros [y [Hy E]]. apply String.eqb_eq in E. now subst.
  - intros H. exists x. split; trivial. apply String.eqb_refl.
Qed.

Lemma lower_priorities (p : string) : In p priorities -> lower p = p.
Proof.
  intros [<-|[<-|[<-|[]]]]; reflexivity.
Qed.

(** C7.  [add_todo] appends one record; its priority is always one of
    low, medium, high, and it is medium whenever the argument is not one
    of the three.  [add_todo] is a total function: no argument raises. *)
Theorem add_todo_coerces_priority (now task p : string)
    (due : option string) (m : TodoManager) :
  exists t,
    todos (snd (add_todo now task p due m)) = todos m ++ [t]
    /\ In (priority t) priorities
    /\ (~ In p priorities -> priority t = "medium").
Proof.
  unfold add_todo.
  destruct (str_in p priorities) eqn:E; simpl;
    eexists; (split; [reflexivity|]); simpl.
  - apply str_in_In in E. rewrite (lower_priorities p E).
    split; [exact E | intros H; now elim H].
  - split; [right; now left | reflexivity].
Qed.

Lemma add_todo_coerces_priority_witness :
  exists t,
    todos (snd (add_todo "2024-01-01 09:00:00" "Buy milk" "urgent" None
                  (fresh Absent))) = [t]
    /\ priority t = "medium".
Proof.
  destruct (add_todo_coerces_priority "2024-01-01 09:00:00" "Buy milk"
              "urgent" None (fresh Absent)) as (t & Ht & _ & Hm).
  exists t. split; [exact Ht|]. apply Hm.
  intros [H|[H|[H|[]]]]; discriminate H.
Defined.

(** ** Update *)

Lemma apply_update_due_date (t p d : option string) (x : TodoItem) :
  due_date (apply_update t p d x)
  = match d with Some s => Some s | None => due_date x end.
Proof.
  unfold apply_update.
  destruct t as [s|]; [destruct (truthy (Some s))|];
    (destruct p as [q|];
     [destruct (truthy (Some q) && str_in (lower q) priorities)|]);
    destruct d; reflexivity.
Qed.

Lemma apply_update_task_falsy (t p d : option string) (x : TodoItem) :
  truthy t = false -> task (apply_update t p d x) = task x.
Proof.
  unfold apply_update. intros E.
  destruct t as [s|]; [rewrite E|];
    (destruct p as [q|];
     [destruct (truthy (Some q) && str_in (lower q) priorities)|]);
    destruct d; reflexivity.
Qed.

Lemma apply_update_nothing (x : TodoItem) :
  apply_update None None None x = x.
Proof. reflexivity. Qed.

(** C9.  On a record that is present, [update_todo] with the three
    fields omitted returns [True]; the list of records, hence every
    field of every record, and [next_id] are as before; the store has
    been saved once more and the file holds its dump. *)
Theorem update_without_fields (i : Z) (m : TodoManager) :
  present i m ->
  let r := update_todo i None None None m in
  fst r = true
  /\ todos (snd r) = todos m
  /\ next_id (snd r) = next_id m
  /\ saves (snd r) = S (saves m)
  /\ file (snd r) = Document (dump m).
Proof.
  intros H. unfold update_todo.
  assert (E : modify_first (apply_update None None None) i (todos m)
              = Some (todos m)) by exact (modify_first_id i (todos m) H).
  rewrite E. simpl. destruct m; repeat split.
Qed.

Lemma update_without_fields_witness :
  let r := update_todo 1 None None None one_record in
  fst r = true
  /\ todos (snd r) = todos one_record
  /\ next_id (snd r) = next_id one_record
  /\ saves (snd r) = S (saves one_record)
  /\ file (snd r) = Document (dump one_record).
Proof.
  apply (update_without_fields 1 one_record).
  eexists. split; [left; reflexivity | reflexivity].
Defined.

(** C10.  On a record that is present, [update_todo] with the empty
    string as description returns [True] and leaves every description of
    the store as it was; the call does exactly what the call with the
    description omitted does. *)
Theorem update_empty_description (i : Z) (p d : option string)
    (m : TodoManager) :
  present i m ->
  let r := update_todo i (Some "") p d m in
  fst r = true
  /\ map task (todos (snd r)) = map task (todos m)
  /\ r = update_todo i None p d m.
Proof.
  intros H r.
  assert (Er : r = update_todo i None p d m) by reflexivity.
  unfold update_todo in r.
  destruct (modify_first_present (apply_update (Some "") p d) i (todos m) H)
    as (l1 & x & l2 & El & _ & _ & E).
  subst r. rewrite E in *. simpl. split; [reflexivity|]. split.
  - rewrite El, !map_app. simpl.
    now rewrite apply_update_task_falsy.
  - exact Er.
Qed.

Lemma update_empty_description_witness :
  let r := update_todo 1 (Some "") (Some "low") None one_record in
  fst r = true
  /\ map task (todos (snd r)) = map task (todos one_record)
  /\ r = update_todo 1 None (Some "low") None one_record.
Proof.
  apply (update_empty_description 1 (Some "low") None one_record).
  eexists. split; [left; reflexivity | reflexivity].
Defined.

(** C8, as the code has it.  On a record that is present, [update_todo]
    returns [True] and changes the [due_date] of the first record with
    the id, and only when the argument is a string: omitted, the field is kept; supplied,
    the field becomes that very string, the empty string included.  The
    new value is therefore null only when the field was null and the
    argument omitted. *)
Theorem update_due_date (i : Z) (t p d : option string) (m : TodoManager) :
  present i m ->
  exists x x',
    fst (update_todo i t p d m) = true
    /\ replaces_first i (todos m)
         (todos (snd (update_todo i t p d m))) x x'
    /\ due_date x'
       = match d with Some s => Some s | None => due_date x end
    /\ (due_date x' = None <-> d = None /\ due_date x = None).
Proof.
  intros H. unfold update_todo.
  destruct (modify_first_present (apply_update t p d) i (todos m) H)
    as (l1 & x & l2 & El & Hid & Hl1 & ->).
  exists x, (apply_update t p d x). simpl.
  split; [reflexivity|].
  split; [now exists l1, l2|]. rewrite apply_update_due_date.
  split; [reflexivity|]. destruct d as [s|].
  - split; [discriminate | intros [E _]; discriminate E].
  - tauto.
Qed.

Lemma update_due_date_witness :
  exists x x',
    fst (update_todo 1 None None (Some "") one_record) = true
    /\ replaces_first 1 (todos one_record)
         (todos (snd (update_todo 1 None None (Some "") one_record))) x x'
    /\ due_date x' = Some ""
    /\ (due_date x' = None <-> Some "" = None /\ due_date x = None).
Proof.
  apply (update_due_date 1 None None (Some "") one_record).
  eexists. split; [left; reflexivity | reflexivity].
Defined.

(** C8, as the specification has it, fails: the record of [one_record]
    has a due date, and no call of [update_todo] whatsoever, under any id
    and with any arguments, leaves a record with a null one. *)
Lemma update_cannot_clear_due_date :
  ~ (exists (i : Z) (t p d : option string) (x : TodoItem),
       In x (todos (snd (update_todo i t p d one_record)))
       /\ due_date x = None).
Proof.
  intros (i & t & p & d & x & Hin & Hx).
  assert (E : exists x0, todos one_record = [x0]
                         /\ due_date x0 = Some "2024-01-01").
  { eexists. split; reflexivity. }
  destruct E as (x0 & E & Ed).
  unfold update_todo in Hin. rewrite E in Hin. cbn [modify_first] in Hin.
  destruct (has_id i x0);
    cbn [option_map commit snd todos save_todos set_todos] in Hin.
  - destruct Hin as [<-|[]].
    rewrite apply_update_due_date, Ed in Hx. destruct d; discriminate Hx.
  - rewrite E in Hin. destruct Hin as [<-|[]]. congruence.
Qed.

(** ** Identifiers along a session *)

Lemma commit_next_id (r : option (list TodoItem)) (m : TodoManager) :
  next_id (snd (commit r m)) = next_id m.
Proof. destruct r; reflexivity. Qed.

(** [add_todo] moves the counter up by one; no other command touches it. *)
Lemma exec_next_id (c : command) (m : TodoManager) :
  next_id (snd (exec c m))
  = match c with Add _ _ _ _ => next_id m + 1 | _ => next_id m end.
Proof.
  destruct c; simpl; trivial;
    unfold remove_todo, complete_todo, uncomplete_todo, update_todo;
    match goal with
    | |- context [commit ?r m] =>
        pose proof (commit_next_id r m); destruct (commit r m); assumption
    end.
Qed.

Lemma exec_next_id_le (c : command) (m : TodoManager) :
  next_id m <= next_id (snd (exec c m)).
Proof. rewrite exec_next_id. destruct c; lia. Qed.

Lemma exec_reply_new_id (c : command) (m : TodoManager) (i : Z) :
  fst (exec c m) = NewId i -> i = next_id m /\ next_id (snd (exec c m)) = i + 1.
Proof.
  destruct c; simpl.
  - intros E. injection E as <-. split; reflexivity.
  - destruct (remove_todo todo_id m); discriminate.
  - destruct (complete_todo now todo_id m); discriminate.
  - destruct (uncomplete_todo todo_id m); discriminate.
  - destruct (update_todo todo_id task0 priority0 due_date0 m); discriminate.
Qed.

Lemma run_cons (c : command) (cs : list command) (m : TodoManager) :
  run (c :: cs) m
  = (fst (exec c m) :: fst (run cs (snd (exec c m))),
     snd (run cs (snd (exec c m)))).
Proof.
  simpl. destruct (exec c m) as [r m1]. simpl.
  destruct (run cs m1); reflexivity.
Qed.

(** Every id handed out during a session lies between the counter at its
    start and the counter at its end, and the ids come out in strictly
    increasing order. *)
Lemma run_new_ids (cs : list command) :
  forall m,
    next_id m <= next_id (snd (run cs m))
    /\ Forall (fun i => next_id m <= i < next_id (snd (run cs m)))
         (new_ids (fst (run cs m)))
    /\ StronglySorted Z.lt (new_ids (fst (run cs m))).
Proof.
  induction cs as [|c cs IH]; intros m.
  - simpl. repeat split; try constructor. lia.
  - rewrite run_cons. cbn [fst snd].
    destruct (IH (snd (exec c m))) as (Hle & Hall & Hs).
    pose proof (exec_next_id_le c m) as Hc.
    split; [lia|].
    destruct (fst (exec c m)) as [i|b] eqn:Er; cbn [new_ids].
    + apply exec_reply_new_id in Er. destruct Er as [-> En].
      split; [|constructor; trivial].
      * constructor; [lia|].
        eapply Forall_impl; [|exact Hall]. cbn beta. intros; lia.
      * eapply Forall_impl; [|exact Hall]. cbn beta. intros; lia.
    + split; trivial.
      eapply Forall_impl; [|exact Hall]. cbn beta. intros; lia.
Qed.

Lemma StronglySorted_lt_NoDup (l : list Z) :
  StronglySorted Z.lt l -> NoDup l.
Proof.
  induction 1 as [|a l _ IH Hall]; constructor; trivial.
  intros Hin. rewrite Forall_forall in Hall.
  specialize (Hall a Hin). lia.
Qed.

(** C1.  Whatever the store a session starts from (the initial store
    [fresh f] in particular) and whatever its commands, the ids returned
    by its [add_todo] calls are strictly increasing, so none is handed
    out twice, removals in between or not; and no command ever lowers
    [next_id]. *)
Theorem ids_strictly_increasing (cs : list command) (m : TodoManager) :
  StronglySorted Z.lt (new_ids (fst (run cs m)))
  /\ NoDup (new_ids (fst (run cs m)))
  /\ next_id m <= next_id (snd (run cs m))
  /\ (forall c m0, next_id m0 <= next_id (snd (exec c m0))).
Proof.
  destruct (run_new_ids cs m) as (Hle & _ & Hs).
  repeat split; trivial.
  - now apply StronglySorted_lt_NoDup.
  - intros c m0. apply exec_next_id_le.
Qed.

(** A session on the initial store: two adds with a removal in between. *)
Example ids_after_remove :
  new_ids (fst (run [Add "2024-01-01 09:00:00" "Buy milk" "high" None;
                     Remove 1;
                     Add "2024-01-01 09:05:00" "Call mom" "low" None]
                  (fresh Absent)))
  = [1; 2].
Proof. reflexivity. Qed.

(** ** Invariants of the records along a session *)

Section RecordInvariant.
Variable P : TodoItem -> Prop.
Hypothesis P_add : forall now t p d i,
  P (set_id i (TodoItem_init now t p d)).
Hypothesis P_complete : forall now x,
  P x -> P (set_completed_at (Some now) (set_completed true x)).
Hypothesis P_uncomplete : forall x,
  P x -> P (set_completed_at None (set_completed false x)).
Hypothesis P_update : forall t p d x, P x -> P (apply_update t p d x).

Lemma delete_first_Forall (i : Z) (l l' : list TodoItem) :
  Forall P l -> delete_first i l = Some l' -> Forall P l'.
Proof.
  intros H. revert l'. induction H as [|x l Hx Hl IH]; intros l'; simpl.
  - discriminate.
  - destruct (has_id i x).
    + intros E. injection E as <-. exact Hl.
    + destruct (delete_first i l) as [k|]; simpl; [|discriminate].
      intros E. injection E as <-. constructor; auto.
Qed.

Lemma modify_first_Forall (f : TodoItem -> TodoItem) (i : Z)
    (l l' : list TodoItem) :
  (forall x, P x -> P (f x)) ->
  Forall P l -> modify_first f i l = Some l' -> Forall P l'.
Proof.
  intros Hf H. revert l'. induction H as [|x l Hx Hl IH]; intros l'; simpl.
  - discriminate.
  - destruct (has_id i x).
    + intros E. injection E as <-. constructor; auto.
    + destruct (modify_first f i l) as [k|]; simpl; [|discriminate].
      intros E. injection E as <-. constructor; auto.
Qed.

Lemma commit_Forall (r : option (list TodoItem)) (m : TodoManager) :
  Forall P (todos m) ->
  (forall l', r = Some l' -> Forall P l') ->
  Forall P (todos (snd (commit r m))).
Proof.
  intros Hm Hr. destruct r as [l'|]; simpl; auto.
Qed.

Lemma exec_Forall (c : command) (m : TodoManager) :
  Forall P (todos m) -> Forall P (todos (snd (exec c m))).
Proof.
  intros Hm. destruct c; simpl.
  - apply Forall_app. split; trivial. constructor; [apply P_add|constructor].
  - unfold remove_todo.
    pose proof (commit_Forall (delete_first todo_id (todos m)) m Hm) as H.
    destruct (commit _ m). apply H.
    intros l'. now apply delete_first_Forall.
  - unfold complete_todo.
    pose proof (fun r => commit_Forall r m Hm) as H.
    match goal with |- context [commit ?r m] => specialize (H r) end.
    destruct (commit _ m). apply H.
    intros l'. apply modify_first_Forall; auto.
  - unfold uncomplete_todo.
    pose proof (fun r => commit_Forall r m Hm) as H.
    match goal with |- context [commit ?r m] => specialize (H r) end.
    destruct (commit _ m). apply H.
    intros l'. apply modify_first_Forall; auto.
  - unfold update_todo.
    pose proof (fun r => commit_Forall r m Hm) as H.
    match goal with |- context [commit ?r m] => specialize (H r) end.
    destruct (commit _ m). apply H.
    intros l'. apply modify_first_Forall; auto.
Qed.
End RecordInvariant.

(** What every command preserves holds along a whole session. *)
Lemma run_Forall (P : TodoItem -> Prop) :
  (forall c m, Forall P (todos m) -> Forall P (todos (snd (exec c m)))) ->
  forall cs m, Forall P (todos m) -> Forall P (todos (snd (run cs m))).
Proof.
  intros Hexec cs. induction cs as [|c cs IH]; intros m Hm; [exact Hm|].
  rewrite run_cons. cbn [snd]. apply IH. now apply Hexec.
Qed.

(** ** Completion stamps *)

Lemma apply_update_completed (t p d : option string) (x : TodoItem) :
  completed (apply_update t p d x) = completed x
  /\ completed_at (apply_update t p d x) = completed_at x.
Proof.
  unfold apply_update.
  destruct t as [s|]; [destruct (truthy (Some s))|];
    (destruct p as [q|];
     [destruct (truthy (Some q) && str_in (lower q) priorities)|]);
    destruct d; split; reflexivity.
Qed.

Lemma stamped_exec (c : command) (m : TodoManager) :
  Forall stamped (todos m) -> Forall stamped (todos (snd (exec c m))).
Proof.
  apply exec_Forall; unfold stamped; simpl.
  - intros _ _ _ _ _. split; [intros H; now elim H | discriminate].
  - intros now _ _. split; [reflexivity | discriminate].
  - intros _ _. split; [intros H; now elim H | discriminate].
  - intros t p d x H.
    destruct (apply_update_completed t p d x) as [-> ->]. exact H.
Qed.

Lemma modify_first_replaces (f : TodoItem -> TodoItem) (i : Z)
    (m : TodoManager) :
  present i m ->
  exists x,
    fst (commit (modify_first f i (todos m)) m) = true
    /\ replaces_first i (todos m)
         (todos (snd (commit (modify_first f i (todos m)) m))) x (f x).
Proof.
  intros H.
  destruct (modify_first_present f i (todos m) H)
    as (l1 & x & l2 & El & Hid & Hl1 & ->).
  exists x. simpl. split; [reflexivity | now exists l1, l2].
Qed.

(** C3.  In every store a session builds from the initial one, each
    record has [completed_at] set if and only if [completed] is true,
    and each command keeps it so.  On a record that is present,
    [complete_todo] returns [True] and leaves the first record with the
    id completed and stamped with the clock reading; [uncomplete_todo]
    returns [True] and leaves it pending with no stamp. *)
Theorem completed_at_iff_completed (cs : list command) (f : file_state) :
  Forall stamped (todos (snd (run cs (fresh f))))
  /\ (forall c m,
        Forall stamped (todos m) -> Forall stamped (todos (snd (exec c m))))
  /\ (forall now i m,
        present i m ->
        exists x x',
          fst (complete_todo now i m) = true
          /\ replaces_first i (todos m)
               (todos (snd (complete_todo now i m))) x x'
          /\ completed x' = true /\ completed_at x' = Some now)
  /\ (forall i m,
        present i m ->
        exists x x',
          fst (uncomplete_todo i m) = true
          /\ replaces_first i (todos m)
               (todos (snd (uncomplete_todo i m))) x x'
          /\ completed x' = false /\ completed_at x' = None).
Proof.
  split; [|split; [|split]].
  - apply (run_Forall stamped stamped_exec). constructor.
  - exact stamped_exec.
  - intros now i m H. unfold complete_todo.
    destruct (modify_first_replaces
                (fun t => set_completed_at (Some now) (set_completed true t))
                i m H) as (x & Hb & Hr).
    eexists x, _. split; [exact Hb|]. split; [exact Hr|]. split; reflexivity.
  - intros i m H. unfold uncomplete_todo.
    destruct (modify_first_replaces
                (fun t => set_completed_at None (set_completed false t))
                i m H) as (x & Hb & Hr).
    eexists x, _. split; [exact Hb|]. split; [exact Hr|]. split; reflexivity.
Qed.

Lemma completed_at_iff_completed_witness :
  Forall stamped
    (todos (snd (run [Add "2024-01-01 09:00:00" "Buy milk" "high" None;
                      Complete "2024-01-02 10:00:00" 1]
                   (fresh Absent))))
  /\ (exists x x',
        fst (complete_todo "2024-01-02 10:00:00" 1 one_record) = true
        /\ replaces_first 1 (todos one_record)
             (todos (snd (complete_todo "2024-01-02 10:00:00" 1 one_record)))
             x x'
        /\ completed x' = true
        /\ completed_at x' = Some "2024-01-02 10:00:00")
  /\ (exists x x',
        fst (uncomplete_todo 1 one_record) = true
        /\ replaces_first 1 (todos one_record)
             (todos (snd (uncomplete_todo 1 one_record))) x x'
        /\ completed x' = false /\ completed_at x' = None).
Proof.
  destruct (completed_at_iff_completed
              [Add "2024-01-01 09:00:00" "Buy milk" "high" None;
               Complete "2024-01-02 10:00:00" 1] Absent)
    as (H1 & _ & H3 & H4).
  assert (Hp : present 1 one_record).
  { eexists. split; [left; reflexivity | reflexivity]. }
  split; [exact H1|]. split; [apply H3 | apply H4]; exact Hp.
Defined.

(** ** Loading *)

(** When the file is absent, or present but not decodable as JSON,
    [__init__] returns a manager with no record and [next_id = 1]. *)
Lemma init_absent_or_undecodable :
  TodoManager_init Absent = Loaded (fresh Absent)
  /\ TodoManager_init Undecodable = Loaded (fresh Undecodable).
Proof. split; reflexivity. Qed.

(** A document with neither key loads as the empty store as well. *)
Example init_empty_object :
  TodoManager_init (Document (JObj []))
  = Loaded (fresh (Document (JObj []))).
Proof. reflexivity. Qed.

(** C2, on the code.  A file holding well-formed JSON of another shape is
    not caught by the handler of [load_todos]: on the document [[]] the
    call [data.get] raises [AttributeError], and on
    [{"todos": [{}]}] the lookup of ["task"] raises [KeyError]; either
    exception leaves [__init__]. *)
Theorem init_raises_on_other_shapes :
  TodoManager_init (Document (JArr [])) = Raised AttributeError
  /\ TodoManager_init (Document (JObj [("todos", JArr [JObj []])]))
     = Raised (KeyError "task").
Proof. split; reflexivity. Qed.

(** ** Save, then load *)

Lemma lower_char_idem (c : ascii) : lower_char (lower_char c) = lower_char c.
Proof.
  destruct c as [[] [] [] [] [] [] [] []]; reflexivity.
Qed.

Lemma lower_idem (s : string) : lower (lower s) = lower s.
Proof.
  induction s as [|c s IH]; simpl; [reflexivity|].
  now rewrite lower_char_idem, IH.
Qed.

Lemma apply_update_priority (t p d : option string) (x : TodoItem) :
  priority (apply_update t p d x) = priority x
  \/ exists q, priority (apply_update t p d x) = lower q.
Proof.
  unfold apply_update.
  destruct t as [s|]; [destruct (truthy (Some s))|];
    (destruct p as [q|];
     [destruct (truthy (Some q) && str_in (lower q) priorities)|]);
    destruct d; simpl; eauto.
Qed.

Lemma lower_stable_exec (c : command) (m : TodoManager) :
  Forall lower_stable (todos m) ->
  Forall lower_stable (todos (snd (exec c m))).
Proof.
  apply exec_Forall; unfold lower_stable; simpl; trivial.
  - intros _ _ p _ _. apply lower_idem.
  - intros t p d x H.
    destruct (apply_update_priority t p d x) as [->|[q ->]];
      [exact H | apply lower_idem].
Qed.

Lemma from_dict_to_dict (t : TodoItem) : from_dict (to_dict t) = Ok (raw_of t).
Proof. reflexivity. Qed.

Lemma typed_item_raw_of (t : TodoItem) :
  lower_stable t -> typed_item (raw_of t) = Some t.
Proof.
  unfold lower_stable. intros H.
  destruct t as [i t c p ca d cd]. simpl in H.
  unfold typed_item, raw_of. simpl. rewrite H.
  destruct i, d, cd; reflexivity.
Qed.

Lemma map_exc_from_dict (l : list TodoItem) :
  map_exc from_dict (map to_dict l) = Ok (map raw_of l).
Proof.
  induction l as [|t l IH]; [reflexivity|].
  cbn [map map_exc]. rewrite from_dict_to_dict, IH. reflexivity.
Qed.

Lemma typed_items_raw_of (l : list TodoItem) :
  Forall lower_stable l -> typed_items (map raw_of l) = Some l.
Proof.
  induction 1 as [|t l Ht _ IH]; [reflexivity|].
  cbn [map typed_items]. now rewrite typed_item_raw_of, IH.
Qed.

Lemma load_save (m : TodoManager) :
  Forall lower_stable (todos m) ->
  load_todos (save_todos m) = Loaded (save_todos m).
Proof.
  intros H. unfold load_todos, save_todos, load_document, dump.
  cbn [file get lookup String.eqb Ascii.eqb Bool.eqb iterate bind].
  rewrite map_exc_from_dict. cbn [bind as_int todos next_id saves].
  now rewrite typed_items_raw_of.
Qed.

(** Loading reads the file, not the manager: whatever the manager held,
    after [load_todos] on a dumped store it holds the records and the
    counter of that store. *)
Lemma load_dump (m0 m1 : TodoManager) :
  file m1 = Document (dump m0) ->
  Forall lower_stable (todos m0) ->
  load_todos m1
  = Loaded {| todos := todos m0; next_id := next_id m0;
              file := file m1; saves := saves m1 |}.
Proof.
  intros Ef H. unfold load_todos. rewrite Ef.
  unfold load_document, dump.
  cbn [get lookup String.eqb Ascii.eqb Bool.eqb iterate bind].
  rewrite map_exc_from_dict. cbn [bind as_int].
  now rewrite typed_items_raw_of.
Qed.

Lemma from_dict_priority (data : json) (r : RawItem) :
  from_dict data = Ok r -> exists s, raw_priority r = lower s.
Proof.
  unfold from_dict.
  repeat match goal with
         | |- context [bind ?x _] =>
             destruct x eqn:?; cbn [bind]; [|discriminate]
         end.
  intros E. injection E as <-. simpl.
  match goal with
  | H : lower_method ?v = Ok _ |- _ =>
      destruct v; try discriminate H; injection H as <-
  end.
  eauto.
Qed.

Lemma map_exc_Forall {A B : Type} (f : A -> exc B) (Q : B -> Prop)
    (l : list A) :
  (forall x y, f x = Ok y -> Q y) ->
  forall ys, map_exc f l = Ok ys -> Forall Q ys.
Proof.
  intros Hf. induction l as [|x l IH]; intros ys; cbn [map_exc].
  - intros E. injection E as <-. constructor.
  - destruct (f x) as [y|] eqn:Ey; cbn [bind]; [|discriminate].
    destruct (map_exc f l) as [zs|]; cbn [bind]; [|discriminate].
    intros E. injection E as <-. constructor; eauto.
Qed.

Lemma typed_item_priority (r : RawItem) (t : TodoItem) :
  typed_item r = Some t -> priority t = raw_priority r.
Proof.
  unfold typed_item.
  destruct (as_opt_int (raw_id r)), (as_str (raw_task r)),
    (as_bool (raw_completed r)), (as_str (raw_created_at r)),
    (as_opt_str (raw_due_date r)), (as_opt_str (raw_completed_at r));
    try discriminate.
  intros E. injection E as <-. reflexivity.
Qed.

Lemma typed_items_lower_stable (rs : list RawItem) :
  Forall (fun r => exists s, raw_priority r = lower s) rs ->
  forall l, typed_items rs = Some l -> Forall lower_stable l.
Proof.
  induction 1 as [|r rs [s Hs] _ IH]; intros l; cbn [typed_items].
  - intros E. injection E as <-. constructor.
  - destruct (typed_item r) as [t|] eqn:Et; [|discriminate].
    destruct (typed_items rs) as [ts|]; [|discriminate].
    intros E. injection E as <-. constructor; auto.
    unfold lower_stable.
    rewrite (typed_item_priority r t Et), Hs. apply lower_idem.
Qed.

Lemma init_lower_stable (f : file_state) (m : TodoManager) :
  TodoManager_init f = Loaded m -> Forall lower_stable (todos m).
Proof.
  unfold TodoManager_init, load_todos. cbn [file fresh].
  destruct f as [| |data].
  - intros E. injection E as <-. constructor.
  - intros E. injection E as <-. constructor.
  - destruct (load_document data) as [[raws n]|] eqn:El; [|discriminate].
    destruct (typed_items raws) as [l|] eqn:Et; [|discriminate].
    destruct (as_int n); [|discriminate].
    intros E. injection E as <-. cbn [todos].
    apply (typed_items_lower_stable raws); trivial.
    unfold load_document in El.
    destruct (get data "todos" (JArr [])); cbn [bind] in El;
      [|discriminate].
    destruct (iterate a) as [items|]; cbn [bind] in El; [|discriminate].
    destruct (map_exc from_dict items) as [rs|] eqn:Em; cbn [bind] in El;
      [|discriminate].
    destruct (get data "next_id" (JInt 1)); cbn [bind] in El;
      [|discriminate].
    injection El as <- _.
    apply (map_exc_Forall from_dict _ items from_dict_priority rs Em).
Qed.

Lemma reachable_lower_stable (m : TodoManager) :
  reachable m -> Forall lower_stable (todos m).
Proof.
  induction 1 as [f m E | c m _ IH].
  - exact (init_lower_stable f m E).
  - now apply lower_stable_exec.
Qed.

(** C4.  In every store a program can reach, [save_todos] followed by
    [load_todos] reproduces the store from the file alone: any manager
    that finds the saved file, whatever records and counter it holds,
    the manager that has just saved included, loads without an
    exception the same list of records (same records, same fields, same
    order) and the same [next_id] as the store saved; so does a program
    started anew on that file. *)
Theorem save_load_round_trip (m : TodoManager) :
  reachable m ->
  (forall m1,
     file m1 = file (save_todos m) ->
     exists m',
       load_todos m1 = Loaded m'
       /\ todos m' = todos m
       /\ next_id m' = next_id m)
  /\ (exists m',
        load_todos (save_todos m) = Loaded m'
        /\ todos m' = todos m
        /\ next_id m' = next_id m)
  /\ (exists m',
        TodoManager_init (file (save_todos m)) = Loaded m'
        /\ todos m' = todos m
        /\ next_id m' = next_id m).
Proof.
  intros H. pose proof (reachable_lower_stable m H) as L.
  assert (A : forall m1,
            file m1 = file (save_todos m) ->
            exists m',
              load_todos m1 = Loaded m'
              /\ todos m' = todos m
              /\ next_id m' = next_id m).
  { intros m1 E. rewrite (load_dump m m1 E L). eexists. repeat split. }
  split; [exact A|]. split; apply A; reflexivity.
Qed.

Lemma save_load_round_trip_witness :
  (exists m',
     load_todos {| todos := todos four_records; next_id := 99;
                   file := file (save_todos one_record); saves := 7 |}
     = Loaded m'
     /\ todos m' = todos one_record
     /\ next_id m' = next_id one_record)
  /\ (exists m',
        load_todos (save_todos one_record) = Loaded m'
        /\ todos m' = todos one_record
        /\ next_id m' = next_id one_record)
  /\ (exists m',
        TodoManager_init (file (save_todos one_record)) = Loaded m'
        /\ todos m' = todos one_record
        /\ next_id m' = next_id one_record).
Proof.
  destruct (save_load_round_trip one_record) as (H1 & H2 & H3).
  - apply (reach_exec
             (Add "2024-01-01 09:00:00" "Buy milk" "high"
                (Some "2024-01-01"))
             (fresh Absent)).
    apply (reach_init Absent). reflexivity.
  - split; [apply H1; reflexivity | split; [exact H2 | exact H3]].
Defined.

(** ** Sorting *)

Section SortedFacts.
Context {A K : Type} (key : A -> K) (lt : K -> K -> bool).

(** [lt] is a strict order whose complement is transitive. *)
Hypothesis lt_asym : forall a b, lt a b = true -> lt b a = false.
Hypothesis ge_trans : forall a b c,
  lt b a = false -> lt c b = false -> lt c a = false.

Local Abbreviation le := (in_order key lt).

Lemma insert_perm (x : A) (l : list A) :
  Permutation (insert key lt x l) (x :: l).
Proof.
  induction l as [|y l IH]; simpl; [reflexivity|].
  destruct (lt (key x) (key y)); [reflexivity|].
  rewrite IH. apply perm_swap.
Qed.

Lemma insert_sorted (x : A) (l : list A) :
  StronglySorted le l -> StronglySorted le (insert key lt x l).
Proof.
  induction 1 as [|y l Hs IH Hy]; simpl.
  - repeat constructor.
  - destruct (lt (key x) (key y)) eqn:E.
    + constructor; [now constructor|].
      constructor; [exact (lt_asym _ _ E)|].
      eapply Forall_impl; [|exact Hy]. intros z Hz. unfold in_order in *.
      exact (ge_trans _ _ _ (lt_asym _ _ E) Hz).
    + constructor; [exact IH|].
      apply (Permutation_Forall (Permutation_sym (insert_perm x l))).
      constructor; [exact E | exact Hy].
Qed.

Lemma fold_insert_perm (l : list A) :
  forall acc,
    Permutation (fold_left (fun a x => insert key lt x a) l acc) (acc ++ l).
Proof.
  induction l as [|x l IH]; intros acc; simpl.
  - now rewrite app_nil_r.
  - rewrite IH, insert_perm. apply Permutation_middle.
Qed.

Lemma fold_insert_sorted (l : list A) :
  forall acc,
    StronglySorted le acc ->
    StronglySorted le (fold_left (fun a x => insert key lt x a) l acc).
Proof.
  induction l as [|x l IH]; intros acc H; simpl; [exact H|].
  apply IH. now apply insert_sorted.
Qed.

Lemma sorted_perm (l : list A) : Permutation (sorted key lt l) l.
Proof. exact (fold_insert_perm l []). Qed.

Lemma sorted_sorted (l : list A) : StronglySorted le (sorted key lt l).
Proof. apply fold_insert_sorted. constructor. Qed.

(** Stability: a class [p] of elements none of which is below another
    keeps its order. *)
Variable p : A -> bool.
Hypothesis p_tied : forall a b,
  p a = true -> p b = true -> lt (key a) (key b) = false.

Lemma insert_filter (x : A) (l : list A) :
  StronglySorted le l ->
  filter p (insert key lt x l) = filter p (l ++ [x]).
Proof.
  induction 1 as [|y l Hs IH Hy]; [reflexivity|].
  cbn [insert]. destruct (lt (key x) (key y)) eqn:E.
  - rewrite filter_app.
    change (filter p (x :: y :: l))
      with (if p x then x :: filter p (y :: l) else filter p (y :: l)).
    change (filter p [x]) with (if p x then [x] else []).
    destruct (p x) eqn:Px; [|now rewrite app_nil_r].
    assert (N : forall z, In z (y :: l) -> p z = false).
    { intros z Hz. destruct (p z) eqn:Pz; trivial.
      assert (Lz : lt (key z) (key y) = false).
      { destruct Hz as [->|Hz].
        - destruct (lt (key z) (key z)) eqn:R; trivial.
          now rewrite (lt_asym _ _ R) in R.
        - rewrite Forall_forall in Hy. exact (Hy z Hz). }
      pose proof (ge_trans _ _ _ Lz (p_tied x z Px Pz)) as C.
      congruence. }
    assert (F : filter p (y :: l) = []).
    { clear -N. induction (y :: l) as [|z k IHk]; simpl; trivial.
      rewrite (N z) by now left.
      apply IHk. intros w Hw. apply N. now right. }
    rewrite F. reflexivity.
  - change ((y :: l) ++ [x]) with (y :: (l ++ [x])).
    cbn [filter]. rewrite IH. reflexivity.
Qed.

Lemma fold_insert_filter (l : list A) :
  forall acc,
    StronglySorted le acc ->
    filter p (fold_left (fun a x => insert key lt x a) l acc)
    = filter p (acc ++ l).
Proof.
  induction l as [|x l IH]; intros acc H; simpl.
  - now rewrite app_nil_r.
  - rewrite IH by now apply insert_sorted.
    change (x :: l) with ([x] ++ l). rewrite app_assoc.
    rewrite (filter_app p (insert key lt x acc) l).
    rewrite insert_filter by exact H.
    now rewrite <- filter_app.
Qed.

Lemma sorted_filter (l : list A) :
  filter p (sorted key lt l) = filter p l.
Proof. apply (fold_insert_filter l []). constructor. Qed.
End SortedFacts.

(** ** Listing order *)

Lemma key_lt_asym (k1 k2 : bool * bool * bool) :
  key_lt k1 k2 = true -> key_lt k2 k1 = false.
Proof.
  destruct k1 as [[[] []] []], k2 as [[[] []] []]; cbv;
    intros; congruence.
Qed.

Lemma key_ge_trans (k1 k2 k3 : bool * bool * bool) :
  key_lt k2 k1 = false -> key_lt k3 k2 = false -> key_lt k3 k1 = false.
Proof.
  destruct k1 as [[[] []] []], k2 as [[[] []] []], k3 as [[[] []] []];
    cbv; intros; congruence.
Qed.

(** The three classes of priority the sort key tells apart. *)
Ltac case_priority t :=
  let E := fresh "E" in
  destruct (String.eqb_spec (priority t) "high") as [E|_];
  [ try rewrite E; clear E
  | destruct (priority t =? "medium")%string ].

(** The tuple comparison of the source orders the records as the
    specification words it. *)
Lemma listed_before_key (a b : TodoItem) :
  key_lt (sort_key b) (sort_key a) = false <-> listed_before a b.
Proof.
  unfold listed_before, sort_key, priority_rank.
  case_priority a; case_priority b;
    destruct (completed a), (completed b);
    unfold key_lt, bool_lt; simpl;
    intuition (try discriminate; try lia).
Qed.

Lemma tied_key (x a b : TodoItem) :
  tied x a = true -> tied x b = true ->
  key_lt (sort_key a) (sort_key b) = false.
Proof.
  unfold tied, sort_key, priority_rank.
  case_priority x; case_priority a; case_priority b;
    destruct (completed x), (completed a), (completed b);
    unfold key_lt, bool_lt; simpl; intros; congruence.
Qed.

Lemma StronglySorted_impl {A : Type} (R S : A -> A -> Prop) (l : list A) :
  (forall a b, R a b -> S a b) -> StronglySorted R l -> StronglySorted S l.
Proof.
  intros H. induction 1 as [|a l _ IH Ha]; constructor; trivial.
  eapply Forall_impl; [|exact Ha]. auto.
Qed.

(** The two filters keep the stored order: together they are one filter
    of the stored list. *)
Lemma select_filter (show_completed : bool) (priority_filter : option string)
    (l : list TodoItem) :
  exists keep, select show_completed priority_filter l = filter keep l.
Proof.
  assert (F : forall (f g : TodoItem -> bool) k,
             filter g (filter f k) = filter (fun x => f x && g x) k).
  { intros f g k. induction k as [|x k IH]; simpl; trivial.
    destruct (f x); simpl; [destruct (g x)|]; now rewrite IH. }
  assert (T : forall k : list TodoItem, k = filter (fun _ => true) k).
  { intros k. induction k as [|x k IH]; simpl; congruence. }
  unfold select.
  destruct show_completed; simpl;
    (destruct priority_filter as [q|];
     [destruct (truthy (Some q))|]);
    try rewrite F; eauto.
Qed.

(** C5.  Whatever the store and the filter arguments, [get_todos]
    returns the selected records (a filter of the stored list)
    rearranged so that every record stands before every later one in the
    listing order (pending before completed, then high before medium
    before low), and the records tied on both keys stand in the order
    in which the store holds them.  On
    the stored records low (pending), high (completed), medium (pending),
    high (pending) the answer is high (pending), medium (pending), low
    (pending), high (completed). *)
Theorem get_todos_order (show_completed : bool)
    (priority_filter : option string) (m : TodoManager) :
  let l := select show_completed priority_filter (todos m) in
  let r := get_todos show_completed priority_filter m in
  (exists keep, l = filter keep (todos m))
  /\ Permutation r l
  /\ StronglySorted listed_before r
  /\ (forall x, filter (tied x) r = filter (tied x) l)
  /\ (map (fun t => (id t, priority t, completed t)) (todos four_records)
      = [(Some 1, "low", false); (Some 2, "high", true);
         (Some 3, "medium", false); (Some 4, "high", false)]
      /\ map (fun t => (id t, priority t, completed t))
           (get_todos true None four_records)
         = [(Some 4, "high", false); (Some 3, "medium", false);
            (Some 1, "low", false); (Some 2, "high", true)]).
Proof.
  intros l r. subst r. unfold get_todos. fold l.
  split; [|split; [|split; [|split]]].
  - apply select_filter.
  - apply sorted_perm.
  - apply (StronglySorted_impl (in_order sort_key key_lt)).
    + intros a b. apply listed_before_key.
    + apply sorted_sorted; [exact key_lt_asym | exact key_ge_trans].
  - intros x. apply sorted_filter.
    + exact key_lt_asym.
    + exact key_ge_trans.
    + exact (tied_key x).
  - split; reflexivity.
Qed.


(** * Further properties of the store *)

(** ** What the loops find *)

Lemma present_cons (i : Z) (t : TodoItem) (l : list TodoItem) :
  has_id i t = false ->
  (exists u, In u (t :: l) /\ id u = Some i) ->
  exists u, In u l /\ id u = Some i.
Proof.
  intros E (u & [<-|Hu] & Hid).
  - apply has_id_true in Hid. congruence.
  - now exists u.
Qed.

Lemma delete_first_present (i : Z) (l : list TodoItem) :
  (exists t, In t l /\ id t = Some i) ->
  exists l1 t l2,
    l = l1 ++ t :: l2 /\ id t = Some i
    /\ (forall u, In u l1 -> has_id i u = false)
    /\ delete_first i l = Some (l1 ++ l2).
Proof.
  induction l as [|a l IH]; intros H.
  - destruct H as (t & [] & _).
  - simpl. destruct (has_id i a) eqn:E.
    + exists [], a, l. repeat split; trivial.
      * now apply has_id_true.
      * intros u [].
    + destruct (IH (present_cons i a l E H))
        as (l1 & t & l2 & -> & Hid & Hl1 & ->).
      exists (a :: l1), t, l2. repeat split; trivial.
      intros u [<-|Hu]; auto.
Qed.

Lemma present_dec (i : Z) (m : TodoManager) : present i m \/ ~ present i m.
Proof.
  unfold present. induction (todos m) as [|a l IH].
  - right. intros (t & [] & _).
  - destruct (has_id i a) eqn:E.
    + left. exists a. split; [now left | now apply has_id_true].
    + destruct IH as [(t & Ht & Hid)|N].
      * left. exists t. split; [now right | exact Hid].
      * right. intros H. apply N. exact (present_cons i a l E H).
Qed.

Lemma commit_found (r : option (list TodoItem)) (m : TodoManager) :
  fst (commit r m) = true <-> r <> None.
Proof.
  destruct r; simpl; split; congruence.
Qed.

Lemma modify_first_found (f : TodoItem -> TodoItem) (i : Z)
    (m : TodoManager) :
  modify_first f i (todos m) <> None <-> present i m.
Proof.
  split.
  - intros H. destruct (present_dec i m) as [P|N]; trivial.
    elim H. apply modify_first_absent. now apply absent_all.
  - intros H. destruct (modify_first_present f i (todos m) H)
      as (l1 & x & l2 & _ & _ & _ & ->). discriminate.
Qed.

Lemma delete_first_found (i : Z) (m : TodoManager) :
  delete_first i (todos m) <> None <-> present i m.
Proof.
  split.
  - intros H. destruct (present_dec i m) as [P|N]; trivial.
    elim H. apply delete_first_absent. now apply absent_all.
  - intros H. destruct (delete_first_present i (todos m) H)
      as (l1 & x & l2 & _ & _ & _ & ->). discriminate.
Qed.

(** X1.  The boolean each of the four commands returns says whether a
    record with the id was in the store. *)
Theorem returns_whether_found (now : string) (i : Z) (t p d : option string)
    (m : TodoManager) :
  (fst (remove_todo i m) = true <-> present i m)
  /\ (fst (complete_todo now i m) = true <-> present i m)
  /\ (fst (uncomplete_todo i m) = true <-> present i m)
  /\ (fst (update_todo i t p d m) = true <-> present i m).
Proof.
  unfold remove_todo, complete_todo, uncomplete_todo, update_todo.
  rewrite !commit_found, delete_first_found, !modify_first_found.
  repeat split; trivial.
Qed.

(** ** Removal *)

(** X2.  On an id that is present, [remove_todo] returns [True], deletes
    the first record carrying the id and no other, keeps the remaining
    records in their order, leaves [next_id] alone and saves the store. *)
Theorem remove_todo_deletes_first (i : Z) (m : TodoManager) :
  present i m ->
  exists l1 x l2,
    todos m = l1 ++ x :: l2
    /\ id x = Some i
    /\ (forall u, In u l1 -> has_id i u = false)
    /\ remove_todo i m = (true, save_todos (set_todos (l1 ++ l2) m))
    /\ next_id (snd (remove_todo i m)) = next_id m
    /\ file (snd (remove_todo i m))
       = Document (dump (set_todos (l1 ++ l2) m)).
Proof.
  intros H. unfold remove_todo.
  destruct (delete_first_present i (todos m) H)
    as (l1 & x & l2 & El & Hid & Hl1 & ->).
  exists l1, x, l2. repeat split; trivial.
Qed.

Lemma remove_todo_deletes_first_witness :
  exists l1 x l2,
    todos four_records = l1 ++ x :: l2
    /\ id x = Some 3
    /\ (forall u, In u l1 -> has_id 3 u = false)
    /\ remove_todo 3 four_records
       = (true, save_todos (set_todos (l1 ++ l2) four_records))
    /\ next_id (snd (remove_todo 3 four_records)) = next_id four_records
    /\ file (snd (remove_todo 3 four_records))
       = Document (dump (set_todos (l1 ++ l2) four_records)).
Proof.
  apply (remove_todo_deletes_first 3 four_records).
  eexists. split; [right; right; left; reflexivity | reflexivity].
Defined.

Lemma absent_map_id (i : Z) (l : list TodoItem) :
  ~ In (Some i) (map id l) -> forall t, In t l -> id t <> Some i.
Proof.
  intros N t Ht E. apply N. rewrite <- E. now apply in_map.
Qed.

(** X3.  In a store whose ids are pairwise distinct, [remove_todo]
    leaves no record under the id, so that removing the same id again
    returns [False] and changes nothing. *)
Theorem remove_todo_twice (i : Z) (m : TodoManager) :
  NoDup (map id (todos m)) ->
  ~ present i (snd (remove_todo i m))
  /\ remove_todo i (snd (remove_todo i m))
     = (false, snd (remove_todo i m)).
Proof.
  intros ND.
  assert (A : forall t, In t (todos (snd (remove_todo i m))) ->
                        id t <> Some i).
  { destruct (present_dec i m) as [P|N].
    - destruct (delete_first_present i (todos m) P)
        as (l1 & x & l2 & El & Hid & _ & E).
      unfold remove_todo. rewrite E. cbn [commit snd save_todos set_todos todos].
      rewrite El, map_app in ND. cbn [map] in ND.
      apply NoDup_remove_2 in ND. rewrite Hid, <- map_app in ND.
      now apply absent_map_id.
    - unfold remove_todo.
      rewrite delete_first_absent by now apply absent_all.
      now apply absent_all. }
  split.
  - intros (t & Ht & Hid). exact (A t Ht Hid).
  - unfold remove_todo at 1. now rewrite delete_first_absent.
Qed.

Lemma remove_todo_twice_witness :
  ~ present 3 (snd (remove_todo 3 four_records))
  /\ remove_todo 3 (snd (remove_todo 3 four_records))
     = (false, snd (remove_todo 3 four_records)).
Proof.
  apply (remove_todo_twice 3 four_records).
  repeat constructor; simpl; intuition discriminate.
Defined.

Lemma delete_first_last (i : Z) (l : list TodoItem) (x : TodoItem) :
  (forall t, In t l -> id t <> Some i) -> id x = Some i ->
  delete_first i (l ++ [x]) = Some l.
Proof.
  intros H Hx. induction l as [|a l IH]; simpl.
  - apply has_id_true in Hx. now rewrite Hx.
  - rewrite (has_id_absent i (a :: l) H a) by now left.
    rewrite IH; [reflexivity|]. intros u Hu. apply H. now right.
Qed.

(** X4.  When no record carries the value of [next_id], removing the id
    that [add_todo] has just returned gives back the former list of
    records, while [next_id] stays one higher: the id is spent. *)
Theorem add_then_remove (now task p : string) (due : option string)
    (m : TodoManager) :
  ~ present (next_id m) m ->
  let a := add_todo now task p due m in
  let r := remove_todo (fst a) (snd a) in
  fst r = true
  /\ todos (snd r) = todos m
  /\ next_id (snd r) = next_id m + 1.
Proof.
  intros N a r. subst r a. unfold add_todo, remove_todo.
  cbn [fst snd save_todos todos].
  rewrite delete_first_last; [repeat split | now apply absent_all | reflexivity].
Qed.

Lemma add_then_remove_witness :
  let a := add_todo "2024-01-03 08:00:00" "Call mom" "low" None one_record in
  let r := remove_todo (fst a) (snd a) in
  fst r = true
  /\ todos (snd r) = todos one_record
  /\ next_id (snd r) = next_id one_record + 1.
Proof.
  apply (add_then_remove "2024-01-03 08:00:00" "Call mom" "low" None
           one_record).
  intros [t [Hin Hid]]. simpl in Hin. destruct Hin as [<-|[]].
  discriminate Hid.
Defined.

(** ** Identifiers of the live records *)

Lemma apply_update_id (t p d : option string) (x : TodoItem) :
  id (apply_update t p d x) = id x.
Proof.
  unfold apply_update.
  destruct t as [s|]; [destruct (truthy (Some s))|];
    (destruct p as [q|];
     [destruct (truthy (Some q) && str_in (lower q) priorities)|]);
    destruct d; reflexivity.
Qed.

Lemma modify_first_map_id (f : TodoItem -> TodoItem) (i : Z)
    (l l' : list TodoItem) :
  (forall x, id (f x) = id x) ->
  modify_first f i l = Some l' -> map id l' = map id l.
Proof.
  intros Hf. revert l'. induction l as [|a l IH]; intros l'; simpl.
  - discriminate.
  - destruct (has_id i a).
    + intros E. injection E as <-. simpl. now rewrite Hf.
    + destruct (modify_first f i l) as [k|]; simpl; [|discriminate].
      intros E. injection E as <-. simpl. now rewrite (IH k).
Qed.

Lemma commit_modify_ids (f : TodoItem -> TodoItem) (i : Z)
    (m : TodoManager) :
  (forall x, id (f x) = id x) ->
  map id (todos (snd (commit (modify_first f i (todos m)) m)))
  = map id (todos m).
Proof.
  intros Hf. destruct (modify_first f i (todos m)) as [l'|] eqn:E; simpl.
  - exact (modify_first_map_id f i (todos m) l' Hf E).
  - reflexivity.
Qed.

(** How a command changes the list of ids and the counter: [add_todo]
    appends the counter and raises it; [remove_todo] on a hit drops one
    id; everything else leaves both as they are. *)
Lemma exec_ids (c : command) (m : TodoManager) :
  (map id (todos (snd (exec c m))) = map id (todos m) ++ [Some (next_id m)]
   /\ next_id (snd (exec c m)) = next_id m + 1)
  \/ (map id (todos (snd (exec c m))) = map id (todos m)
      /\ next_id (snd (exec c m)) = next_id m)
  \/ (exists k1 o k2,
        map id (todos m) = k1 ++ o :: k2
        /\ map id (todos (snd (exec c m))) = k1 ++ k2
        /\ next_id (snd (exec c m)) = next_id m).
Proof.
  pose proof (exec_next_id c m) as En. destruct c.
  - left. split; [|exact En]. simpl. now rewrite map_app.
  - right. destruct (present_dec todo_id m) as [P|N].
    + right. destruct (delete_first_present todo_id (todos m) P)
        as (l1 & x & l2 & El & _ & _ & E).
      exists (map id l1), (id x), (map id l2).
      split; [now rewrite El, map_app|]. split; [|exact En].
      simpl. unfold remove_todo. rewrite E. simpl. apply map_app.
    + left. split; [|exact En]. simpl. unfold remove_todo.
      rewrite delete_first_absent by now apply absent_all. reflexivity.
  - right. left. split; [|exact En]. simpl. unfold complete_todo.
    pose proof (commit_modify_ids
                  (fun t => set_completed_at (Some now) (set_completed true t))
                  todo_id m (fun _ => eq_refl)) as H.
    destruct (commit _ m). exact H.
  - right. left. split; [|exact En]. simpl. unfold uncomplete_todo.
    pose proof (commit_modify_ids
                  (fun t => set_completed_at None (set_completed false t))
                  todo_id m (fun _ => eq_refl)) as H.
    destruct (commit _ m). exact H.
  - right. left. split; [|exact En]. simpl. unfold update_todo.
    pose proof (commit_modify_ids (apply_update task0 priority0 due_date0)
                  todo_id m (apply_update_id task0 priority0 due_date0)) as H.
    destruct (commit _ m). exact H.
Qed.

Lemma issued_mono (n n' : Z) (o : option Z) :
  n <= n' -> issued n o -> issued n' o.
Proof.
  intros Hn (i & -> & Hi). exists i. split; [reflexivity | lia].
Qed.

Lemma exec_ids_distinct (c : command) (m : TodoManager) :
  NoDup (map id (todos m)) /\ Forall (issued (next_id m)) (map id (todos m))
  /\ 1 <= next_id m ->
  NoDup (map id (todos (snd (exec c m))))
  /\ Forall (issued (next_id (snd (exec c m))))
       (map id (todos (snd (exec c m))))
  /\ 1 <= next_id (snd (exec c m)).
Proof.
  intros (ND & Hall & H1).
  destruct (exec_ids c m)
    as [[-> ->] | [[-> ->] | (k1 & o & k2 & E & -> & ->)]].
  - split; [|split; [|lia]].
    + apply NoDup_app; [exact ND | repeat constructor; intros [] |].
      intros o Ho [<-|[]]. rewrite Forall_forall in Hall.
      destruct (Hall _ Ho) as (i & Ei & Hi). injection Ei as <-. lia.
    + apply Forall_app. split.
      * eapply Forall_impl; [|exact Hall]. intros o. apply issued_mono. lia.
      * repeat constructor. exists (next_id m). split; [reflexivity | lia].
  - now repeat split.
  - rewrite E in ND, Hall. split; [|split; [|exact H1]].
    + exact (NoDup_remove_1 _ _ _ ND).
    + apply Forall_app in Hall. destruct Hall as [Ha Hb].
      apply Forall_app. split; [exact Ha | now inversion Hb].
Qed.

(** What each command preserves holds at the end of a session. *)
Lemma run_preserves (I : TodoManager -> Prop) :
  (forall c m, I m -> I (snd (exec c m))) ->
  forall cs m, I m -> I (snd (run cs m)).
Proof.
  intros Hexec cs. induction cs as [|c cs IH]; intros m Hm; [exact Hm|].
  rewrite run_cons. cbn [snd]. apply IH. now apply Hexec.
Qed.

(** X5.  In every store a session builds from the initial one, the live
    records carry pairwise distinct ids, each of them an integer from 1
    up to, but excluding, [next_id]. *)
Theorem live_ids_distinct (cs : list command) (f : file_state) :
  NoDup (map id (todos (snd (run cs (fresh f)))))
  /\ Forall (issued (next_id (snd (run cs (fresh f)))))
       (map id (todos (snd (run cs (fresh f)))))
  /\ 1 <= next_id (snd (run cs (fresh f))).
Proof.
  apply (run_preserves
           (fun m => NoDup (map id (todos m))
                     /\ Forall (issued (next_id m)) (map id (todos m))
                     /\ 1 <= next_id m)).
  - exact exec_ids_distinct.
  - simpl. repeat split; [constructor | constructor | lia].
Qed.

(** ** Priorities along a session *)

Lemma truthy_recognised (q : string) :
  truthy (Some q) && str_in (lower q) priorities
  = str_in (lower q) priorities.
Proof.
  destruct q as [|c q]; reflexivity.
Qed.

Lemma apply_update_priority_eq (t p d : option string) (x : TodoItem) :
  priority (apply_update t p d x)
  = match p with
    | Some q => if str_in (lower q) priorities then lower q else priority x
    | None => priority x
    end.
Proof.
  unfold apply_update.
  destruct t as [s|]; [destruct (truthy (Some s))|];
    (destruct p as [q|];
     [rewrite truthy_recognised; destruct (str_in (lower q) priorities)|]);
    destruct d; reflexivity.
Qed.

Lemma coerced_priority (p : string) :
  In (lower (if negb (str_in p priorities) then "medium" else p)) priorities.
Proof.
  destruct (str_in p priorities) eqn:E; simpl.
  - apply str_in_In in E. now rewrite (lower_priorities p E).
  - right. now left.
Qed.

Lemma recognised_exec (c : command) (m : TodoManager) :
  Forall (fun t => In (priority t) priorities) (todos m) ->
  Forall (fun t => In (priority t) priorities) (todos (snd (exec c m))).
Proof.
  intros Hm. destruct c; simpl.
  - apply Forall_app. split; trivial.
    constructor; [apply coerced_priority | constructor].
  - unfold remove_todo.
    pose proof (commit_Forall _ (delete_first todo_id (todos m)) m Hm) as H.
    destruct (commit _ m). apply H.
    intros l'. now apply delete_first_Forall.
  - unfold complete_todo.
    pose proof (fun r => commit_Forall _ r m Hm) as H.
    match goal with |- context [commit ?r m] => specialize (H r) end.
    destruct (commit _ m). apply H.
    intros l'. apply modify_first_Forall; auto.
  - unfold uncomplete_todo.
    pose proof (fun r => commit_Forall _ r m Hm) as H.
    match goal with |- context [commit ?r m] => specialize (H r) end.
    destruct (commit _ m). apply H.
    intros l'. apply modify_first_Forall; auto.
  - unfold update_todo.
    pose proof (fun r => commit_Forall _ r m Hm) as H.
    match goal with |- context [commit ?r m] => specialize (H r) end.
    destruct (commit _ m). apply H.
    intros l'. apply modify_first_Forall; auto.
    intros x Hx. rewrite apply_update_priority_eq.
    destruct priority0 as [q|]; trivial.
    destruct (str_in (lower q) priorities) eqn:E; trivial.
    now apply str_in_In.
Qed.

(** X6.  In every store a session builds from the initial one, the
    priority of each record is one of low, medium, high: [add_todo]
    coerces, and [update_todo] assigns a priority only when its lower
    case is one of the three. *)
Theorem priorities_recognised (cs : list command) (f : file_state) :
  Forall (fun t => In (priority t) priorities)
    (todos (snd (run cs (fresh f)))).
Proof.
  apply (run_Forall _ recognised_exec). constructor.
Qed.

(** ** Completing and reopening *)

Lemma modify_first_ext (f g : TodoItem -> TodoItem) (i : Z)
    (l : list TodoItem) :
  (forall x, f x = g x) -> modify_first f i l = modify_first g i l.
Proof.
  intros H. induction l as [|a l IH]; simpl; trivial.
  now rewrite H, IH.
Qed.

Lemma has_id_same (i : Z) (x y : TodoItem) :
  id x = id y -> has_id i x = has_id i y.
Proof. unfold has_id. now intros ->. Qed.

Lemma modify_first_twice (f g : TodoItem -> TodoItem) (i : Z)
    (l l' : list TodoItem) :
  (forall x, id (f x) = id x) ->
  modify_first f i l = Some l' ->
  modify_first g i l' = modify_first (fun x => g (f x)) i l.
Proof.
  intros Hf. revert l'. induction l as [|a l IH]; intros l'; simpl.
  - discriminate.
  - destruct (has_id i a) eqn:E.
    + intros H. injection H as <-. simpl.
      now rewrite (has_id_same i (f a) a (Hf a)), E.
    + destruct (modify_first f i l) as [k|]; simpl; [|discriminate].
      intros H. injection H as <-. simpl. rewrite E.
      now rewrite (IH k).
Qed.

(** Two commands of the modifying kind in a row, on the same id: the
    outcome, the records and the counter are those of one command that
    applies both changes. *)
Lemma commit_twice (f g : TodoItem -> TodoItem) (i : Z) (m : TodoManager) :
  (forall x, id (f x) = id x) ->
  let m1 := snd (commit (modify_first f i (todos m)) m) in
  let r2 := commit (modify_first g i (todos m1)) m1 in
  let r := commit (modify_first (fun x => g (f x)) i (todos m)) m in
  fst r2 = fst r
  /\ todos (snd r2) = todos (snd r)
  /\ next_id (snd r2) = next_id (snd r).
Proof.
  intros Hf. cbv zeta.
  destruct (modify_first f i (todos m)) as [l'|] eqn:E.
  - cbn [commit snd save_todos set_todos todos].
    rewrite (modify_first_twice f g i (todos m) l' Hf E).
    assert (P : present i m).
    { apply (modify_first_found f). rewrite E. discriminate. }
    apply (modify_first_found (fun x => g (f x))) in P.
    destruct (modify_first (fun x => g (f x)) i (todos m));
      [repeat split | now elim P].
  - cbn [commit snd].
    assert (N : modify_first g i (todos m) = None
                /\ modify_first (fun x => g (f x)) i (todos m) = None).
    { destruct (present_dec i m) as [P|N].
      - apply (modify_first_found f) in P. contradiction.
      - split; apply modify_first_absent; now apply absent_all. }
    destruct N as [-> ->]. repeat split.
Qed.

(** X7.  [complete_todo] followed by [uncomplete_todo] on the same id
    comes to [uncomplete_todo] alone: same boolean, same records, same
    [next_id]; whatever the record was before, it ends pending and
    without a completion stamp. *)
Theorem complete_then_uncomplete (now : string) (i : Z) (m : TodoManager) :
  let m1 := snd (complete_todo now i m) in
  fst (uncomplete_todo i m1) = fst (uncomplete_todo i m)
  /\ todos (snd (uncomplete_todo i m1)) = todos (snd (uncomplete_todo i m))
  /\ next_id (snd (uncomplete_todo i m1))
     = next_id (snd (uncomplete_todo i m)).
Proof.
  unfold complete_todo, uncomplete_todo.
  exact (commit_twice
           (fun t => set_completed_at (Some now) (set_completed true t))
           (fun t => set_completed_at None (set_completed false t))
           i m (fun _ => eq_refl)).
Qed.

(** X8.  Completing a record that is already completed stamps it anew:
    two [complete_todo] on the same id come to the second one alone, so
    [completed_at] holds the later clock reading. *)
Theorem complete_twice (now1 now2 : string) (i : Z) (m : TodoManager) :
  let m1 := snd (complete_todo now1 i m) in
  fst (complete_todo now2 i m1) = fst (complete_todo now2 i m)
  /\ todos (snd (complete_todo now2 i m1))
     = todos (snd (complete_todo now2 i m))
  /\ next_id (snd (complete_todo now2 i m1))
     = next_id (snd (complete_todo now2 i m)).
Proof.
  unfold complete_todo.
  exact (commit_twice
           (fun t => set_completed_at (Some now1) (set_completed true t))
           (fun t => set_completed_at (Some now2) (set_completed true t))
           i m (fun _ => eq_refl)).
Qed.

(** ** What an update touches *)

Lemma apply_update_task (t p d : option string) (x : TodoItem) :
  task (apply_update t p d x)
  = match t with
    | Some s => if (s =? "")%string then task x else s
    | None => task x
    end.
Proof.
  unfold apply_update.
  destruct p as [q|];
    [destruct (truthy (Some q) && str_in (lower q) priorities)|];
    destruct d; destruct t as [u|]; try reflexivity;
    unfold truthy; destruct (u =? "")%string; reflexivity.
Qed.

Lemma apply_update_created_at (t p d : option string) (x : TodoItem) :
  created_at (apply_update t p d x) = created_at x.
Proof.
  unfold apply_update.
  destruct t as [s|]; [destruct (truthy (Some s))|];
    (destruct p as [q|];
     [destruct (truthy (Some q) && str_in (lower q) priorities)|]);
    destruct d; reflexivity.
Qed.

(** X9.  On an id that is present, [update_todo] rewrites the first
    record with the id and no other.  Of that record, the id, the
    completion flag and both timestamps stay; the description becomes
    the argument when that is a non-empty string; the priority becomes
    the lower case of the argument when that lower case is one of low,
    medium, high, so [HIGH] is accepted here; [next_id] stays. *)
Theorem update_todo_fields (i : Z) (t p d : option string)
    (m : TodoManager) :
  present i m ->
  exists x x',
    replaces_first i (todos m) (todos (snd (update_todo i t p d m))) x x'
    /\ id x' = id x
    /\ completed x' = completed x
    /\ created_at x' = created_at x
    /\ completed_at x' = completed_at x
    /\ task x' = match t with
                 | Some s => if (s =? "")%string then task x else s
                 | None => task x
                 end
    /\ priority x' = match p with
                     | Some q => if str_in (lower q) priorities
                                 then lower q else priority x
                     | None => priority x
                     end
    /\ next_id (snd (update_todo i t p d m)) = next_id m.
Proof.
  intros H. unfold update_todo.
  destruct (modify_first_present (apply_update t p d) i (todos m) H)
    as (l1 & x & l2 & El & Hid & Hl1 & ->).
  exists x, (apply_update t p d x). cbn [commit snd save_todos set_todos
                                         todos next_id].
  split; [now exists l1, l2|].
  destruct (apply_update_completed t p d x) as [Ec Ea].
  repeat split;
    auto using apply_update_id, apply_update_created_at, apply_update_task,
      apply_update_priority_eq.
Qed.

Lemma update_todo_fields_witness :
  exists x x',
    replaces_first 1 (todos one_record)
      (todos (snd (update_todo 1 (Some "Buy bread") (Some "LOW") None
                     one_record))) x x'
    /\ id x' = id x
    /\ completed x' = completed x
    /\ created_at x' = created_at x
    /\ completed_at x' = completed_at x
    /\ task x' = "Buy bread"
    /\ priority x' = "low"
    /\ next_id (snd (update_todo 1 (Some "Buy bread") (Some "LOW") None
                       one_record)) = next_id one_record.
Proof.
  apply (update_todo_fields 1 (Some "Buy bread") (Some "LOW") None
           one_record).
  eexists. split; [left; reflexivity | reflexivity].
Defined.

(** ** What a listing holds *)

Lemma lower_empty (p : string) : (lower p =? "")%string = (p =? "")%string.
Proof. destruct p; reflexivity. Qed.

Lemma select_In (show_completed : bool) (priority_filter : option string)
    (l : list TodoItem) (t : TodoItem) :
  In t (select show_completed priority_filter l)
  <-> In t l
      /\ (show_completed = false -> completed t = false)
      /\ (forall p, priority_filter = Some p -> p <> "" ->
                    priority t = lower p).
Proof.
  unfold select.
  assert (A : In t (if negb show_completed
                    then filter (fun todo => negb (completed todo)) l else l)
              <-> In t l /\ (show_completed = false -> completed t = false)).
  { destruct show_completed; simpl.
    - intuition discriminate.
    - rewrite filter_In, negb_true_iff. intuition. }
  destruct priority_filter as [p|].
  - unfold truthy. destruct (String.eqb_spec p "") as [->|Np]; simpl.
    + rewrite A. split; [|tauto]. intros [H1 H2]. repeat split; trivial.
      intros q E. injection E as <-. intros N. now elim N.
    + rewrite filter_In, A, String.eqb_eq. split.
      * intros [[H1 H2] H3]. repeat split; trivial.
        intros q E. injection E as <-. trivial.
      * intros (H1 & H2 & H3). repeat split; trivial. now apply H3.
  - rewrite A. split; [|tauto]. intros [H1 H2]. repeat split; trivial.
    discriminate.
Qed.

(** X10.  A record is in the answer of [get_todos] exactly when it is in
    the store, is pending if completed records are not to be shown, and,
    if a non-empty priority filter is given, has the lower case of the
    filter as its priority. *)
Theorem get_todos_membership (show_completed : bool)
    (priority_filter : option string) (m : TodoManager) (t : TodoItem) :
  In t (get_todos show_completed priority_filter m)
  <-> In t (todos m)
      /\ (show_completed = false -> completed t = false)
      /\ (forall p, priority_filter = Some p -> p <> "" ->
                    priority t = lower p).
Proof.
  rewrite <- select_In. unfold get_todos. split.
  - apply Permutation_in. apply sorted_perm.
  - apply Permutation_in. apply Permutation_sym. apply sorted_perm.
Qed.

Lemma get_todos_membership_witness :
  In (set_id (Some 4)
        (TodoItem_init "2024-01-01 09:03:00" "Pay rent" "high" None))
    (get_todos false (Some "HIGH") four_records).
Proof.
  apply (get_todos_membership false (Some "HIGH") four_records).
  split; [|split].
  - right. right. right. left. reflexivity.
  - reflexivity.
  - intros p E _. injection E as <-. reflexivity.
Defined.

(** X11.  The priority filter is matched without regard to its case: a
    filter and its lower case give the same listing; the empty filter
    gives the listing without a filter. *)
Theorem get_todos_filter_case (show_completed : bool) (p : string)
    (m : TodoManager) :
  get_todos show_completed (Some p) m
  = get_todos show_completed (Some (lower p)) m
  /\ get_todos show_completed (Some "") m = get_todos show_completed None m.
Proof.
  split; [|reflexivity].
  unfold get_todos, select, truthy.
  now rewrite lower_empty, lower_idem.
Qed.

(** ** What is on disk after a command *)

Lemma commit_saved (r : option (list TodoItem)) (m : TodoManager) :
  fst (commit r m) = true -> exists m0, snd (commit r m) = save_todos m0.
Proof.
  destruct r as [l|]; simpl; [eauto | discriminate].
Qed.

(** A command that does not answer [False] ends with [save_todos]. *)
Lemma exec_saved (c : command) (m : TodoManager) :
  fst (exec c m) <> Found false ->
  exists m0, snd (exec c m) = save_todos m0.
Proof.
  destruct c; simpl.
  - eauto.
  - pose proof (commit_saved (delete_first todo_id (todos m)) m) as H.
    unfold remove_todo. destruct (commit _ m) as [[] m']; simpl in *;
      [auto | intros N; now elim N].
  - unfold complete_todo.
    match goal with
    | |- context [commit ?r m] => pose proof (commit_saved r m) as H
    end.
    destruct (commit _ m) as [[] m']; simpl in *;
      [auto | intros N; now elim N].
  - unfold uncomplete_todo.
    match goal with
    | |- context [commit ?r m] => pose proof (commit_saved r m) as H
    end.
    destruct (commit _ m) as [[] m']; simpl in *;
      [auto | intros N; now elim N].
  - unfold update_todo.
    match goal with
    | |- context [commit ?r m] => pose proof (commit_saved r m) as H
    end.
    destruct (commit _ m) as [[] m']; simpl in *;
      [auto | intros N; now elim N].
Qed.

(** X12.  After any command that hands out an id or answers [True], the
    file holds the store as it now is: a program started on that file
    loads, without an exception, the same records and the same
    [next_id]. *)
Theorem restart_restores (c : command) (m : TodoManager) :
  reachable m ->
  fst (exec c m) <> Found false ->
  file (snd (exec c m)) = Document (dump (snd (exec c m)))
  /\ exists m',
       TodoManager_init (file (snd (exec c m))) = Loaded m'
       /\ todos m' = todos (snd (exec c m))
       /\ next_id m' = next_id (snd (exec c m)).
Proof.
  intros R S.
  pose proof (reachable_lower_stable _ (reach_exec c m R)) as L.
  destruct (exec_saved c m S) as [m0 E]. rewrite E in *.
  split; [reflexivity|].
  unfold TodoManager_init.
  rewrite (load_dump (save_todos m0)) by (reflexivity || exact L).
  eexists. repeat split.
Qed.

Lemma restart_restores_witness :
  let m := snd (exec (Complete "2024-01-02 10:00:00" 1) one_record) in
  file m = Document (dump m)
  /\ exists m',
       TodoManager_init (file m) = Loaded m'
       /\ todos m' = todos m
       /\ next_id m' = next_id m.
Proof.
  apply (restart_restores (Complete "2024-01-02 10:00:00" 1) one_record).
  - apply (reach_exec
             (Add "2024-01-01 09:00:00" "Buy milk" "high"
                (Some "2024-01-01"))
             (fresh Absent)).
    apply (reach_init Absent). reflexivity.
  - discriminate.
Defined.

(** ** Reading records back *)

Lemma subscript_Ok (data v : json) (k : string) :
  subscript data k = Ok v <-> exists kvs, data = JObj kvs /\ lookup k kvs = Some v.
Proof.
  split.
  - destruct data as [| | | | |kvs]; try discriminate. simpl.
    destruct (lookup k kvs) as [w|] eqn:E; [|discriminate].
    intros H. injection H as <-. eauto.
  - intros (kvs & -> & E). simpl. now rewrite E.
Qed.

(** X13.  [from_dict] succeeds exactly on the objects that have the seven
    keys and a string under [priority]; the record it builds holds the
    lower case of that string and, unchecked, the six other values. *)
Theorem from_dict_succeeds_iff (data : json) (r : RawItem) :
  from_dict data = Ok r
  <-> exists kvs p,
        data = JObj kvs
        /\ lookup "priority" kvs = Some (JStr p)
        /\ raw_priority r = lower p
        /\ lookup "task" kvs = Some (raw_task r)
        /\ lookup "due_date" kvs = Some (raw_due_date r)
        /\ lookup "id" kvs = Some (raw_id r)
        /\ lookup "completed" kvs = Some (raw_completed r)
        /\ lookup "created_at" kvs = Some (raw_created_at r)
        /\ lookup "completed_at" kvs = Some (raw_completed_at r).
Proof.
  split.
  - unfold from_dict.
    repeat match goal with
           | |- context [bind ?x _] =>
               destruct x eqn:?; cbn [bind]; [|discriminate]
           end.
    intros E. injection E as <-. cbn [raw_id raw_task raw_completed
      raw_priority raw_created_at raw_due_date raw_completed_at].
    repeat match goal with
           | H : subscript _ _ = Ok _ |- _ =>
               apply subscript_Ok in H; destruct H as (? & ? & H)
           end.
    subst data.
    repeat match goal with
           | H : JObj _ = JObj _ |- _ => injection H as ->
           end.
    match goal with
    | H : lower_method ?v = Ok _ |- _ =>
        destruct v; try discriminate H; injection H as <-
    end.
    eexists _, _. repeat split; eassumption.
  - intros (kvs & p & -> & Hp & Er & Ht & Hd & Hi & Hc & Hca & Hcd).
    unfold from_dict, subscript.
    rewrite Ht, Hp, Hd, Hi, Hc, Hca, Hcd. cbn [bind lower_method].
    rewrite <- Er. now destruct r.
Qed.

(** X14.  [to_dict] followed by [from_dict] gives the record back with
    its priority in lower case, hence the very record when the priority
    is in lower case already. *)
Theorem to_dict_from_dict (t : TodoItem) :
  exists r,
    from_dict (to_dict t) = Ok r
    /\ typed_item r = Some (set_priority (lower (priority t)) t)
    /\ (lower (priority t) = priority t -> typed_item r = Some t).
Proof.
  exists (raw_of t). split; [reflexivity|]. split.
  - destruct t as [i t c p ca d cd]. destruct i, d, cd; reflexivity.
  - apply typed_item_raw_of.
Qed.

Lemma to_dict_from_dict_witness :
  exists r,
    from_dict
      (to_dict (TodoItem_init "2024-01-01 09:00:00" "Buy milk" "HIGH" None))
    = Ok r
    /\ typed_item r
       = Some (TodoItem_init "2024-01-01 09:00:00" "Buy milk" "HIGH" None).
Proof.
  destruct (to_dict_from_dict
              (TodoItem_init "2024-01-01 09:00:00" "Buy milk" "HIGH" None))
    as (r & H1 & _ & H3).
  exists r. split; [exact H1 | apply H3; reflexivity].
Defined.

(** ** Files the loader does not accept *)

Lemma map_exc_first_failure {A B : Type} (f : A -> exc B)
    (good : list A) (bad : A) (rest : list A) (e : exn) :
  Forall (fun x => exists y, f x = Ok y) good ->
  f bad = Raise e ->
  map_exc f (good ++ bad :: rest) = Raise e.
Proof.
  intros Hg Hb. induction Hg as [|x good [y Ey] _ IH]; cbn [app map_exc].
  - now rewrite Hb.
  - rewrite Ey. cbn [bind]. now rewrite IH.
Qed.

(** X15.  A decoded document that is not an object makes [__init__]
    raise [AttributeError].  In an object whose [todos] is a list, the
    first record that [from_dict] refuses decides: [__init__] raises the
    exception of that record, however many records before and after it
    are in order; nothing is loaded. *)
Theorem init_raises (data : json) :
  ((forall kvs, data <> JObj kvs) ->
   TodoManager_init (Document data) = Raised AttributeError)
  /\ (forall kvs good bad rest e,
        data = JObj kvs ->
        lookup "todos" kvs = Some (JArr (good ++ bad :: rest)) ->
        Forall (fun x => exists r, from_dict x = Ok r) good ->
        from_dict bad = Raise e ->
        TodoManager_init (Document data) = Raised e).
Proof.
  split.
  - intros N. destruct data as [| | | | |kvs]; try reflexivity.
    now elim (N kvs).
  - intros kvs good bad rest e -> Et Hg Hb.
    unfold TodoManager_init, load_todos, load_document. cbn [file get].
    rewrite Et. cbn [bind iterate].
    now rewrite (map_exc_first_failure from_dict good bad rest e Hg Hb).
Qed.

Lemma init_raises_witness :
  TodoManager_init (Document (JStr "todos")) = Raised AttributeError
  /\ TodoManager_init
       (Document
          (JObj [("todos",
                  JArr ([to_dict (TodoItem_init "2024-01-01 09:00:00"
                                    "Buy milk" "high" None)]
                        ++ JInt 7 :: []));
                 ("next_id", JInt 2)]))
     = Raised TypeError.
Proof.
  split.
  - apply (init_raises (JStr "todos")). intros kvs. discriminate.
  - eapply (init_raises _); [reflexivity | reflexivity | | reflexivity].
    repeat constructor. eexists. reflexivity.
Defined.

(** X16.  The loader takes [next_id] from the file and does not compare
    it with the records: a file that has the records but no [next_id]
    key loads with [next_id = 1], and the next [add_todo] hands out 1
    whatever ids the records carry. *)
Theorem init_without_next_id (l : list TodoItem)
    (now task p : string) (due : option string) :
  Forall lower_stable l ->
  exists m,
    TodoManager_init (Document (JObj [("todos", JArr (map to_dict l))]))
    = Loaded m
    /\ todos m = l
    /\ next_id m = 1
    /\ fst (add_todo now task p due m) = 1.
Proof.
  intros H. unfold TodoManager_init, load_todos, load_document.
  cbn [file fresh get lookup String.eqb Ascii.eqb Bool.eqb iterate bind].
  rewrite map_exc_from_dict. cbn [bind as_int].
  rewrite typed_items_raw_of by exact H.
  eexists. repeat split.
Qed.

Lemma init_without_next_id_witness :
  exists m,
    TodoManager_init
      (Document (JObj [("todos", JArr (map to_dict (todos one_record)))]))
    = Loaded m
    /\ todos m = todos one_record
    /\ next_id m = 1
    /\ fst (add_todo "2024-01-03 08:00:00" "Call mom" "low" None m) = 1.
Proof.
  apply (init_without_next_id (todos one_record)).
  repeat constructor.
Defined.

(** * The presentation layer *)

(** ** Stripping *)

Lemma lstrip_starts_clean (s : string) : starts_clean (lstrip s).
Proof.
  induction s as [|c s IH]; simpl; trivial.
  destruct (is_space c) eqn:E; simpl; trivial.
Qed.

Lemma lstrip_clean (s : string) : starts_clean s -> lstrip s = s.
Proof.
  destruct s as [|c s]; simpl; trivial. now intros ->.
Qed.

Lemma rstrip_starts_clean (s : string) :
  starts_clean s -> starts_clean (rstrip s).
Proof.
  destruct s as [|c s]; simpl; trivial. intros E.
  destruct (rstrip s); [rewrite E|]; exact E.
Qed.

Lemma rstrip_idem (s : string) : rstrip (rstrip s) = rstrip s.
Proof.
  induction s as [|c s IH]; simpl; trivial.
  destruct (rstrip s) as [|c' r] eqn:E.
  - destruct (is_space c) eqn:Ec; simpl; trivial. now rewrite Ec.
  - simpl in IH. simpl. destruct (rstrip r) eqn:Er.
    + destruct (is_space c'); [discriminate IH | now rewrite IH].
    + now rewrite IH.
Qed.

Lemma strip_idem (s : string) : strip (strip s) = strip s.
Proof.
  unfold strip.
  rewrite (lstrip_clean (rstrip (lstrip s))).
  - apply rstrip_idem.
  - apply rstrip_starts_clean, lstrip_starts_clean.
Qed.

Lemma nonblank_trimmed (line : string) : trimmed_opt (nonblank line).
Proof.
  unfold nonblank. destruct (String.eqb_spec (strip line) "") as [E|N].
  - exact I.
  - split; [exact N | apply strip_idem].
Qed.

(** ** What a run does to the manager *)

Lemma run_app (cs1 cs2 : list command) (m : TodoManager) :
  snd (run (cs1 ++ cs2) m) = snd (run cs2 (snd (run cs1 m))).
Proof.
  revert m. induction cs1 as [|c cs1 IH]; intros m; [reflexivity|].
  rewrite <- app_comm_cons, !run_cons. cbn [snd]. apply IH.
Qed.

Lemma steps_refl (s : session) : steps s s.
Proof. exists []. repeat split; auto. Qed.

Lemma steps_trans (s1 s2 s3 : session) :
  steps s1 s2 -> steps s2 s3 -> steps s1 s3.
Proof.
  intros (cs1 & H1 & E1 & L1) (cs2 & H2 & E2 & L2).
  exists (cs1 ++ cs2). split; [now apply Forall_app|]. split.
  - now rewrite run_app, <- E1.
  - lia.
Qed.

Lemma steps_quiet (s s' : session) :
  manager s' = manager s ->
  (List.length (stdin s') <= List.length (stdin s))%nat ->
  steps s s'.
Proof. intros E L. exists []. repeat split; auto. Qed.

Lemma steps_exec (c : command) (s s' : session) :
  menu_command c ->
  manager s' = snd (exec c (manager s)) ->
  (List.length (stdin s') <= List.length (stdin s))%nat ->
  steps s s'.
Proof.
  intros Hc E L. exists [c]. split; [now constructor|]. split; trivial.
  rewrite run_cons. exact E.
Qed.

Lemma tame_ret {A : Type} (a : A) : tame (ret a).
Proof. intros s. apply steps_refl. Qed.

Lemma tame_then {A B : Type} (p : prog A) (k : A -> prog B) :
  tame p -> (forall a, tame (k a)) -> tame (then_ p k).
Proof.
  intros Hp Hk s. unfold then_. specialize (Hp s).
  destruct (p s) as [a s1|f s1|]; trivial.
  specialize (Hk a s1).
  destruct (k a s1) as [b s2|f s2|]; trivial;
    now apply (steps_trans s s1 s2).
Qed.

Lemma tame_print (t : text) : tame (print t).
Proof. intros s. now apply steps_quiet. Qed.

Lemma tame_print_all (ts : list text) : tame (print_all ts).
Proof.
  induction ts as [|t ts IH]; simpl.
  - apply tame_ret.
  - apply tame_then; [apply tame_print | intros _; exact IH].
Qed.

Lemma tame_input (prompt : text) : tame (input prompt).
Proof.
  intros s. unfold input. destruct (stdin s) as [|line rest] eqn:E.
  - apply steps_quiet; simpl; [reflexivity | now rewrite E].
  - apply steps_quiet; simpl; [reflexivity | rewrite E; simpl; lia].
Qed.

Lemma tame_show (l : list TodoItem) : tame (show l).
Proof.
  intros s. unfold show. destruct (display_todos l) as [lines [e|]];
    now apply steps_quiet.
Qed.

Lemma tame_call_exec {A : Type} (method : TodoManager -> A * TodoManager)
    (c : command) :
  menu_command c ->
  (forall m, snd (method m) = snd (exec c m)) ->
  tame (call method).
Proof.
  intros Hc E s. unfold call. specialize (E (manager s)).
  destruct (method (manager s)) as [a m']. simpl in E.
  now apply (steps_exec c).
Qed.

Lemma tame_call_pure {A : Type} (f : TodoManager -> A) :
  tame (call (fun m => (f m, m))).
Proof. intros s. now apply steps_quiet. Qed.

Lemma snd_exec_remove (i : Z) (m : TodoManager) :
  snd (remove_todo i m) = snd (exec (Remove i) m).
Proof. simpl. now destruct (remove_todo i m). Qed.

Lemma snd_exec_complete (t : string) (i : Z) (m : TodoManager) :
  snd (complete_todo t i m) = snd (exec (Complete t i) m).
Proof. simpl. now destruct (complete_todo t i m). Qed.

Lemma snd_exec_update (i : Z) (t p d : option string) (m : TodoManager) :
  snd (update_todo i t p d m) = snd (exec (Update i t p d) m).
Proof. simpl. now destruct (update_todo i t p d m). Qed.

Section MenuIsTame.
Variable int : string -> option Z.
Variable clock : nat -> string.

Lemma tame_read_clock : tame (read_clock clock).
Proof. intros s. apply steps_refl. Qed.

(** Closes the routine goals: sequencing, printing, reading. *)
Ltac tame_step :=
  first
    [ apply tame_then; [|intro]
    | apply tame_ret
    | apply tame_print
    | apply tame_print_all
    | apply tame_input
    | apply tame_read_clock
    | apply tame_show
    | apply tame_call_pure ].

Lemma tame_choice_add : tame (choice_add clock).
Proof.
  unfold choice_add. apply tame_then; [apply tame_input | intros l1].
  destruct (String.eqb_spec (strip l1) "") as [E|N].
  - repeat tame_step.
  - apply tame_then; [apply tame_input | intros l2].
    apply tame_then; [apply tame_input | intros l3].
    apply tame_then; [apply tame_read_clock | intros t].
    apply tame_then; [|intros i; repeat tame_step].
    apply (tame_call_exec _
             (Add t (strip l1)
                (if (strip l2 =? "")%string then "medium" else strip l2)
                (nonblank l3))); [|reflexivity].
    split; [split; [exact N | apply strip_idem]|].
    split; [|apply nonblank_trimmed].
    destruct (String.eqb_spec (strip l2) "") as [E2|N2].
    + split; [discriminate | reflexivity].
    + split; [exact N2 | apply strip_idem].
Qed.

Lemma tame_choice_complete : tame (choice_complete int clock).
Proof.
  unfold choice_complete. apply tame_then; [apply tame_input | intros l1].
  destruct (int l1) as [i|]; [|repeat tame_step].
  apply tame_then; [apply tame_read_clock | intros t].
  apply tame_then; [|intros b; repeat tame_step].
  apply (tame_call_exec _ (Complete t i)); [exact I|].
  intros m. apply snd_exec_complete.
Qed.

Lemma tame_choice_remove : tame (choice_remove int).
Proof.
  unfold choice_remove. apply tame_then; [apply tame_input | intros l1].
  destruct (int l1) as [i|]; [|repeat tame_step].
  apply tame_then; [|intros b; repeat tame_step].
  apply (tame_call_exec _ (Remove i)); [exact I|].
  intros m. apply snd_exec_remove.
Qed.

Lemma tame_choice_update : tame (choice_update int).
Proof.
  unfold choice_update. apply tame_then; [apply tame_input | intros l1].
  destruct (int l1) as [i|]; [|repeat tame_step].
  apply tame_then; [apply tame_input | intros l2].
  apply tame_then; [apply tame_input | intros l3].
  apply tame_then; [apply tame_input | intros l4].
  apply tame_then; [|intros b; repeat tame_step].
  apply (tame_call_exec _
           (Update i (nonblank l2) (nonblank l3) (nonblank l4))).
  - repeat split; apply nonblank_trimmed.
  - intros m. apply snd_exec_update.
Qed.

Lemma tame_choice_view (show_completed : bool) :
  tame (choice_view show_completed).
Proof. unfold choice_view. repeat tame_step. Qed.

Lemma tame_choice_filter : tame choice_filter.
Proof.
  unfold choice_filter. apply tame_then; [apply tame_input | intros l1].
  destruct (str_in (lower (strip l1)) priorities); repeat tame_step.
Qed.

Lemma tame_choices (choice : string) :
  tame (if (choice =? "1")%string then choice_add clock
        else if (choice =? "2")%string then choice_view true
        else if (choice =? "3")%string then choice_complete int clock
        else if (choice =? "4")%string then choice_remove int
        else if (choice =? "5")%string then choice_update int
        else if (choice =? "6")%string then choice_view false
        else if (choice =? "7")%string then choice_filter
        else if (choice =? "8")%string then
          let* _ := print (128075%N :: codes " Goodbye!") in ret false
        else
          let* _ := print (no_mark " Invalid choice! Please enter 1-8.") in
          ret true).
Proof.
  repeat match goal with
         | |- tame (if ?b then _ else _) => destruct b
         end;
    auto using tame_choice_add, tame_choice_view, tame_choice_complete,
      tame_choice_remove, tame_choice_update, tame_choice_filter;
    repeat tame_step.
Qed.

(** One round of the loop: the manager goes through commands of the
    menu, and a round that returns has read at least one line. *)
Lemma iteration_steps (s : session) :
  match iteration int clock s with
  | Returns _ s' =>
      steps s s' /\ (List.length (stdin s') < List.length (stdin s))%nat
  | Raises _ s' => steps s s'
  | OutOfFuel => False
  end.
Proof.
  unfold iteration, then_ at 1.
  pose proof (tame_print_all menu s) as H0.
  destruct (print_all menu s) as [[] s0|f s0|] eqn:E0;
    [|discriminate E0|discriminate E0].
  assert (L0 : stdin s0 = stdin s).
  { cbv in E0. now injection E0 as <-. }
  unfold then_ at 1, input.
  destruct (stdin s0) as [|line rest] eqn:E1.
  - eapply steps_trans; [exact H0|]. apply steps_quiet; simpl; trivial.
  - set (s1 := {| stdin := rest; consumed := S (consumed s0);
                  stdout := stdout s0 ++ [Ask (10%N :: codes
                    "Enter your choice (1-8): ")];
                  manager := manager s0 |}).
    assert (H1 : steps s s1).
    { eapply steps_trans; [exact H0|]. apply steps_quiet; simpl; trivial.
      rewrite E1. simpl. lia. }
    pose proof (tame_choices (strip line) s1) as H2.
    match goal with
    | |- match ?r with _ => _ end =>
        match type of H2 with
        | match ?r' with _ => _ end => change r with r'
        end
    end.
    match type of H2 with
    | match ?r' with _ => _ end => destruct r' as [b s2|f s2|]
    end; trivial.
    + split; [now apply (steps_trans s s1 s2)|].
      destruct H2 as (_ & _ & _ & L2).
      assert (L : List.length (stdin s) = S (List.length rest)).
      { rewrite <- L0; try rewrite E1; reflexivity. }
      simpl in L2. lia.
    + now apply (steps_trans s s1 s2).
Qed.
End MenuIsTame.

(** ** The table *)

Lemma display_rows_all (l : list TodoItem) :
  ids_set l ->
  snd (display_rows l) = None
  /\ List.length (fst (display_rows l)) = List.length l.
Proof.
  induction 1 as [|t l Ht _ [IH1 IH2]]; [split; reflexivity|].
  cbn [display_rows]. unfold display_row.
  destruct (id t) as [i|]; [|now elim Ht].
  destruct (display_rows l) as [lines e]. simpl in *.
  split; [exact IH1 | now rewrite IH2].
Qed.

Lemma display_rows_stop (l1 l2 : list TodoItem) (t : TodoItem) :
  ids_set l1 -> id t = None ->
  snd (display_rows (l1 ++ t :: l2)) = Some TypeError
  /\ List.length (fst (display_rows (l1 ++ t :: l2))) = List.length l1.
Proof.
  intros H Ht. induction H as [|u l1 Hu _ [IH1 IH2]].
  - cbn [app display_rows]. unfold display_row. rewrite Ht.
    split; reflexivity.
  - cbn [app display_rows]. unfold display_row.
    destruct (id u) as [i|]; [|now elim Hu].
    destruct (display_rows (l1 ++ t :: l2)) as [lines e]. simpl in *.
    split; [exact IH1 | now rewrite IH2].
Qed.

Lemma display_todos_returns (l : list TodoItem) :
  ids_set l -> snd (display_todos l) = None.
Proof.
  intros H. destruct l as [|t l]; [reflexivity|].
  destruct (display_rows_all (t :: l) H) as [E _].
  unfold display_todos. destruct (display_rows (t :: l)) as [lines e].
  exact E.
Qed.

(** X17.  On the empty list [display_todos] prints the one line saying
    so.  On a non-empty list whose records all have an id it prints
    three lines of heading, one line per record and a closing rule, and
    returns.  At the first record whose id is [None] it raises
    [TypeError], having printed the heading and the records before. *)
Theorem display_todos_lines (l : list TodoItem) :
  (ids_set l ->
   snd (display_todos l) = None
   /\ List.length (fst (display_todos l))
      = match l with [] => 1 | _ :: _ => List.length l + 4 end%nat)
  /\ (forall l1 t l2,
        l = l1 ++ t :: l2 -> ids_set l1 -> id t = None ->
        snd (display_todos l) = Some TypeError
        /\ List.length (fst (display_todos l)) = (3 + List.length l1)%nat).
Proof.
  split.
  - intros H. destruct l as [|t l]; [split; reflexivity|].
    destruct (display_rows_all (t :: l) H) as [E1 E2].
    unfold display_todos. destruct (display_rows (t :: l)) as [lines e].
    simpl in E1, E2. subst e. cbn [fst snd]. split; [reflexivity|].
    rewrite !length_app, E2. simpl. lia.
  - intros l1 t l2 -> H Ht.
    destruct (display_rows_stop l1 l2 t H Ht) as [E1 E2].
    unfold display_todos.
    destruct (l1 ++ t :: l2) as [|u k] eqn:E;
      [now destruct l1 | rewrite <- E in *].
    destruct (display_rows (l1 ++ t :: l2)) as [lines e].
    simpl in E1, E2. subst e. cbn [fst snd]. split; [reflexivity|].
    rewrite !length_app, E2. simpl. lia.
Qed.

Lemma display_todos_lines_witness :
  (snd (display_todos (todos four_records)) = None
   /\ List.length (fst (display_todos (todos four_records))) = 8%nat)
  /\ (snd (display_todos
             (todos one_record
              ++ TodoItem_init "2024-01-01 09:00:00" "Buy milk" "high" None
              :: todos four_records)) = Some TypeError
      /\ List.length
           (fst (display_todos
                   (todos one_record
                    ++ TodoItem_init "2024-01-01 09:00:00" "Buy milk" "high"
                         None
                    :: todos four_records))) = 4%nat).
Proof.
  split.
  - apply (display_todos_lines (todos four_records)).
    repeat constructor; discriminate.
  - destruct (display_todos_lines
                (todos one_record
                 ++ TodoItem_init "2024-01-01 09:00:00" "Buy milk" "high"
                      None
                 :: todos four_records)) as [_ H].
    apply (H (todos one_record)
             (TodoItem_init "2024-01-01 09:00:00" "Buy milk" "high" None)
             (todos four_records));
      [reflexivity | repeat constructor; discriminate | reflexivity].
Defined.

Lemma length_substring_0 (n : nat) (s : string) :
  String.length (substring 0 n s) = Nat.min n (String.length s).
Proof.
  revert s. induction n as [|n IH]; intros [|c s]; simpl; trivial.
  now rewrite IH.
Qed.

Lemma length_string_app (s1 s2 : string) :
  String.length (s1 ++ s2) = (String.length s1 + String.length s2)%nat.
Proof.
  induction s1 as [|c s1 IH]; simpl; [reflexivity | now rewrite IH].
Qed.

Lemma length_codes (s : string) : List.length (codes s) = String.length s.
Proof.
  unfold codes. rewrite length_map.
  induction s as [|c s IH]; simpl; [reflexivity | now rewrite IH].
Qed.

Lemma length_ljust (w : nat) (t : text) :
  List.length (ljust w t) = Nat.max w (List.length t).
Proof.
  unfold ljust. rewrite length_app, repeat_length. lia.
Qed.

(** X18.  A description of at most 30 characters is shown whole, in a
    cell of exactly 30; a longer one is shown as its first 30 characters
    followed by three dots, in a cell of 33, three wider than the
    column. *)
Theorem task_display_width (todo : TodoItem) :
  let n := String.length (task todo) in
  ((n <= 30)%nat ->
   task_display todo = task todo
   /\ List.length (ljust 30 (codes (task_display todo))) = 30%nat)
  /\ ((30 < n)%nat ->
      task_display todo = (substring 0 30 (task todo) ++ "...")%string
      /\ String.length (substring 0 30 (task todo)) = 30%nat
      /\ List.length (ljust 30 (codes (task_display todo))) = 33%nat).
Proof.
  intros n. subst n. unfold task_display. split; intros H.
  - destruct (Nat.ltb_spec 30 (String.length (task todo))); [lia|].
    split; [reflexivity|]. rewrite length_ljust, length_codes. lia.
  - destruct (Nat.ltb_spec 30 (String.length (task todo))); [|lia].
    split; [reflexivity|].
    assert (E : String.length (substring 0 30 (task todo)) = 30%nat).
    { rewrite length_substring_0. lia. }
    split; [exact E|].
    rewrite length_ljust, length_codes, length_string_app, E. reflexivity.
Qed.

Lemma task_display_width_witness :
  (task_display (TodoItem_init "2024-01-01 09:00:00" "Buy milk" "high" None)
   = "Buy milk"
   /\ List.length
        (ljust 30
           (codes (task_display
                     (TodoItem_init "2024-01-01 09:00:00" "Buy milk" "high"
                        None)))) = 30%nat)
  /\ (task_display
        (TodoItem_init "2024-01-01 09:00:00"
           "Renew the passport before the summer holidays" "high" None)
      = "Renew the passport before the ..."
      /\ List.length
           (ljust 30
              (codes (task_display
                        (TodoItem_init "2024-01-01 09:00:00"
                           "Renew the passport before the summer holidays"
                           "high" None)))) = 33%nat).
Proof.
  split.
  - apply (task_display_width
             (TodoItem_init "2024-01-01 09:00:00" "Buy milk" "high" None)).
    simpl. lia.
  - destruct (task_display_width
                (TodoItem_init "2024-01-01 09:00:00"
                   "Renew the passport before the summer holidays"
                   "high" None)) as [_ H].
    destruct H as (H1 & _ & H3); [simpl; lia|].
    split; [exact H1 | exact H3].
Defined.

(** ** Records along a run *)

(** What a command does to a property of the records, case by case. *)
Lemma exec_Forall_cases (P : TodoItem -> Prop) (c : command)
    (m : TodoManager) :
  Forall P (todos m) ->
  (forall now t p d,
     c = Add now t p d ->
     P (set_id (Some (next_id m))
          (TodoItem_init now t
             (if negb (str_in p priorities) then "medium" else p) d))) ->
  (forall i t p d x, c = Update i t p d -> P x -> P (apply_update t p d x)) ->
  (forall now x,
     P x -> P (set_completed_at (Some now) (set_completed true x))) ->
  (forall x, P x -> P (set_completed_at None (set_completed false x))) ->
  Forall P (todos (snd (exec c m))).
Proof.
  intros Hm Ha Hu Hc Hn. destruct c; simpl.
  - apply Forall_app. split; trivial. constructor; [|constructor].
    now apply (Ha now task0 priority0 due_date0).
  - unfold remove_todo.
    pose proof (commit_Forall _ (delete_first todo_id (todos m)) m Hm) as H.
    destruct (commit _ m). apply H.
    intros l'. now apply delete_first_Forall.
  - unfold complete_todo.
    pose proof (fun r => commit_Forall _ r m Hm) as H.
    match goal with |- context [commit ?r m] => specialize (H r) end.
    destruct (commit _ m). apply H.
    intros l'. apply modify_first_Forall; auto.
  - unfold uncomplete_todo.
    pose proof (fun r => commit_Forall _ r m Hm) as H.
    match goal with |- context [commit ?r m] => specialize (H r) end.
    destruct (commit _ m). apply H.
    intros l'. apply modify_first_Forall; auto.
  - unfold update_todo.
    pose proof (fun r => commit_Forall _ r m Hm) as H.
    match goal with |- context [commit ?r m] => specialize (H r) end.
    destruct (commit _ m). apply H.
    intros l'. apply modify_first_Forall; auto.
    intros x. now apply (Hu todo_id).
Qed.

Lemma exec_ids_set (c : command) (m : TodoManager) :
  ids_set (todos m) -> ids_set (todos (snd (exec c m))).
Proof.
  intros H. apply exec_Forall_cases; trivial; simpl.
  - discriminate.
  - intros _ t p d x _. now rewrite apply_update_id.
Qed.

Lemma menu_exec_trimmed (c : command) (m : TodoManager) :
  menu_command c ->
  Forall (fun t => trimmed (task t) /\ trimmed_opt (due_date t)) (todos m) ->
  Forall (fun t => trimmed (task t) /\ trimmed_opt (due_date t))
    (todos (snd (exec c m))).
Proof.
  intros Hc H. apply exec_Forall_cases; trivial; simpl.
  - intros now t p d ->. destruct Hc as (Ht & _ & Hd). now split.
  - intros i t p d x -> [Hx Hdx]. destruct Hc as (Ht & _ & Hd).
    rewrite apply_update_task, apply_update_due_date. split.
    + destruct t as [u|]; trivial.
      destruct (String.eqb_spec u ""); [exact Hx | exact Ht].
    + destruct d as [u|]; [exact Hd | exact Hdx].
Qed.

Lemma menu_run_trimmed (cs : list command) :
  Forall menu_command cs ->
  forall m,
    Forall (fun t => trimmed (task t) /\ trimmed_opt (due_date t))
      (todos m) ->
    Forall (fun t => trimmed (task t) /\ trimmed_opt (due_date t))
      (todos (snd (run cs m))).
Proof.
  induction 1 as [|c cs Hc _ IH]; intros m Hm; [exact Hm|].
  rewrite run_cons. cbn [snd]. apply IH. now apply menu_exec_trimmed.
Qed.

(** ** What cannot go wrong in a run *)

Lemma safe_ret {A : Type} (a : A) : safe (ret a).
Proof. intros s H. exact H. Qed.

Lemma safe_then {A B : Type} (p : prog A) (k : A -> prog B) :
  safe p -> (forall a, safe (k a)) -> safe (then_ p k).
Proof.
  intros Hp Hk s H. unfold then_. specialize (Hp s H).
  destruct (p s) as [a s1|f s1|]; trivial.
  exact (Hk a s1 Hp).
Qed.

Lemma safe_print (t : text) : safe (print t).
Proof. intros s H. exact H. Qed.

Lemma safe_print_all (ts : list text) : safe (print_all ts).
Proof.
  induction ts as [|t ts IH]; simpl.
  - apply safe_ret.
  - apply safe_then; [apply safe_print | intros _; exact IH].
Qed.

Lemma safe_input (prompt : text) : safe (input prompt).
Proof.
  intros s H. unfold input. destruct (stdin s); [reflexivity | exact H].
Qed.

Lemma safe_call_exec {A : Type} (method : TodoManager -> A * TodoManager)
    (c : command) :
  (forall m, snd (method m) = snd (exec c m)) -> safe (call method).
Proof.
  intros E s H. unfold call. specialize (E (manager s)).
  destruct (method (manager s)) as [a m']. simpl in *. subst m'.
  now apply exec_ids_set.
Qed.

Lemma get_todos_ids_set (show_completed : bool)
    (priority_filter : option string) (m : TodoManager) :
  ids_set (todos m) ->
  ids_set (get_todos show_completed priority_filter m).
Proof.
  unfold ids_set, get_todos. rewrite !Forall_forall. intros H t Ht.
  apply (Permutation_in t (sorted_perm sort_key key_lt _)) in Ht.
  apply select_In in Ht. now apply H.
Qed.

(** Listing: the table of the records [get_todos] returns. *)
Lemma safe_listing (show_completed : bool) (priority_filter : option string) :
  safe (let* todos :=
          call (fun m => (get_todos show_completed priority_filter m, m)) in
        let* _ := show todos in
        ret true).
Proof.
  intros s H. unfold then_, call, show, ret.
  pose proof (display_todos_returns _ (get_todos_ids_set
                show_completed priority_filter (manager s) H)) as E.
  cbn [manager] in *.
  destruct (display_todos _) as [lines e]. simpl in E. subst e. exact H.
Qed.

Section MenuIsSafe.
Variable int : string -> option Z.
Variable clock : nat -> string.

Lemma safe_read_clock : safe (read_clock clock).
Proof. intros s H. exact H. Qed.

Ltac safe_step :=
  first
    [ apply safe_then; [|intro]
    | apply safe_ret
    | apply safe_print
    | apply safe_print_all
    | apply safe_input
    | apply safe_read_clock ].

Lemma safe_choices (choice : string) :
  safe (if (choice =? "1")%string then choice_add clock
        else if (choice =? "2")%string then choice_view true
        else if (choice =? "3")%string then choice_complete int clock
        else if (choice =? "4")%string then choice_remove int
        else if (choice =? "5")%string then choice_update int
        else if (choice =? "6")%string then choice_view false
        else if (choice =? "7")%string then choice_filter
        else if (choice =? "8")%string then
          let* _ := print (128075%N :: codes " Goodbye!") in ret false
        else
          let* _ := print (no_mark " Invalid choice! Please enter 1-8.") in
          ret true).
Proof.
  repeat match goal with
         | |- safe (if ?b then _ else _) => destruct b
         end;
    try (repeat safe_step; fail);
    try apply safe_listing.
  - unfold choice_add. apply safe_then; [apply safe_input | intros l1].
    destruct (strip l1 =? "")%string; [repeat safe_step|].
    do 3 (apply safe_then; [safe_step | intro]).
    apply safe_then; [|intro; repeat safe_step].
    now apply (safe_call_exec _ (Add a1 (strip l1)
      (if (strip a =? "")%string then "medium" else strip a) (nonblank a0))).
  - unfold choice_complete. apply safe_then; [apply safe_input | intros l1].
    destruct (int l1) as [i|]; [|repeat safe_step].
    apply safe_then; [safe_step | intros t].
    apply safe_then; [|intro; repeat safe_step].
    apply (safe_call_exec _ (Complete t i)).
    intros m. apply snd_exec_complete.
  - unfold choice_remove. apply safe_then; [apply safe_input | intros l1].
    destruct (int l1) as [i|]; [|repeat safe_step].
    apply safe_then; [|intro; repeat safe_step].
    apply (safe_call_exec _ (Remove i)).
    intros m. apply snd_exec_remove.
  - unfold choice_update. apply safe_then; [apply safe_input | intros l1].
    destruct (int l1) as [i|]; [|repeat safe_step].
    do 3 (apply safe_then; [safe_step | intro]).
    apply safe_then; [|intro; repeat safe_step].
    apply (safe_call_exec _
             (Update i (nonblank a) (nonblank a0) (nonblank a1))).
    intros m. apply snd_exec_update.
  - unfold choice_filter. apply safe_then; [apply safe_input | intros l1].
    destruct (str_in (lower (strip l1)) priorities);
      [apply safe_listing | repeat safe_step].
Qed.

Lemma safe_iteration : safe (iteration int clock).
Proof.
  unfold iteration.
  apply safe_then; [apply safe_print_all | intros _].
  apply safe_then; [apply safe_input | intros line].
  apply safe_choices.
Qed.

(** With more fuel than lines, the loop ends by [break] or by an
    exception, and what it did to the manager is a run of menu
    commands. *)
Lemma loop_steps (fuel : nat) :
  forall s,
    (List.length (stdin s) < fuel)%nat ->
    match loop int clock fuel s with
    | Returns _ s' => steps s s'
    | Raises _ s' => steps s s'
    | OutOfFuel => False
    end.
Proof.
  induction fuel as [|fuel IH]; intros s L; [lia|].
  cbn [loop]. pose proof (iteration_steps int clock s) as H.
  destruct (iteration int clock s) as [[] s1|f s1|]; trivial.
  - destruct H as [H1 L1].
    assert (L' : (List.length (stdin s1) < fuel)%nat) by lia.
    specialize (IH s1 L').
    destruct (loop int clock fuel s1) as [u s2|f s2|]; trivial;
      now apply (steps_trans s s1 s2).
  - now destruct H.
Qed.

Lemma loop_safe (fuel : nat) :
  forall s,
    (List.length (stdin s) < fuel)%nat ->
    ids_set (todos (manager s)) ->
    match loop int clock fuel s with
    | Returns _ _ => True
    | Raises f _ => f = EOFError
    | OutOfFuel => False
    end.
Proof.
  induction fuel as [|fuel IH]; intros s L H; [lia|].
  cbn [loop]. pose proof (iteration_steps int clock s) as Hs.
  pose proof (safe_iteration s H) as Hi.
  destruct (iteration int clock s) as [[] s1|f s1|]; trivial.
  destruct Hs as [_ L1]. apply IH; [lia | exact Hi].
Qed.
End MenuIsSafe.

(** ** Whole runs *)

(** X19.  Started on a store in which every record has an id, the
    program ends in one of two ways only: by the [break] of choice 8, or
    by [EOFError] when the input runs out.  No exception of the store or
    of the display leaves [main], a line that [int] refuses included,
    and the loop makes no more rounds than there are lines. *)
Theorem main_ends_by_break_or_eof (int : string -> option Z)
    (clock : nat -> string) (m : TodoManager) (lines : list string) :
  ids_set (todos m) ->
  exists s',
    main_with int clock m lines = Returns tt s'
    \/ main_with int clock m lines = Raises EOFError s'.
Proof.
  intros H. unfold main_with.
  pose proof (loop_safe int clock (S (List.length lines))
                {| stdin := lines; consumed := 0; stdout := [];
                   manager := m |} (Nat.lt_succ_diag_r _) H) as L.
  destruct (loop int clock _ _) as [[] s'|f s'|]; [eauto| |contradiction].
  subst f. eauto.
Qed.

Lemma main_ends_by_break_or_eof_witness :
  exists s',
    main_with (fun _ => Some 1) (fun _ => "2024-01-02 10:00:00")
      one_record ["3"; "x"; "2"] = Returns tt s'
    \/ main_with (fun _ => Some 1) (fun _ => "2024-01-02 10:00:00")
         one_record ["3"; "x"; "2"] = Raises EOFError s'.
Proof.
  apply (main_ends_by_break_or_eof (fun _ => Some 1)
           (fun _ => "2024-01-02 10:00:00") one_record ["3"; "x"; "2"]).
  repeat constructor. discriminate.
Defined.

(** X20.  Whatever is typed, all that a run does to the manager is a
    sequence of commands of the store, in which every description and
    priority passed is trimmed and not empty, and every optional
    argument is either omitted or trimmed and not empty. *)
Theorem main_runs_menu_commands (int : string -> option Z)
    (clock : nat -> string) (m : TodoManager) (lines : list string) :
  exists s' cs,
    final (main_with int clock m lines) = Some s'
    /\ Forall menu_command cs
    /\ manager s' = snd (run cs m)
    /\ (List.length (stdin s') <= List.length lines)%nat.
Proof.
  unfold main_with.
  pose proof (loop_steps int clock (S (List.length lines))
                {| stdin := lines; consumed := 0; stdout := [];
                   manager := m |} (Nat.lt_succ_diag_r _)) as L.
  destruct (loop int clock _ _) as [u s'|f s'|]; [| |contradiction];
    destruct L as (cs & H1 & H2 & H3); exists s', cs; auto.
Qed.

(** X21.  When the file is absent or cannot be decoded, then however
    the run goes and however it ends, the store it leaves has these
    properties: [completed_at] is set exactly on the completed records,
    every priority is one of low, medium, high, the ids are pairwise
    distinct, every description is trimmed and not empty, and every due
    date is either null or trimmed and not empty. *)
Theorem main_keeps_invariants (int : string -> option Z)
    (clock : nat -> string) (f : file_state) (lines : list string) :
  f = Absent \/ f = Undecodable ->
  exists r s',
    main int clock f lines = Some r
    /\ final r = Some s'
    /\ Forall stamped (todos (manager s'))
    /\ Forall (fun t => In (priority t) priorities) (todos (manager s'))
    /\ NoDup (map id (todos (manager s')))
    /\ Forall (fun t => trimmed (task t)) (todos (manager s'))
    /\ Forall (fun t => trimmed_opt (due_date t)) (todos (manager s')).
Proof.
  intros Hf.
  assert (E : main int clock f lines
              = Some (main_with int clock (fresh f) lines)).
  { destruct Hf as [->| ->]; reflexivity. }
  unfold main_with in E.
  pose proof (loop_steps int clock (S (List.length lines))
                {| stdin := lines; consumed := 0; stdout := [];
                   manager := fresh f |} (Nat.lt_succ_diag_r _)) as L.
  eexists. 
  assert (S : exists s' cs,
            final (loop int clock (S (List.length lines))
                     {| stdin := lines; consumed := 0; stdout := [];
                        manager := fresh f |}) = Some s'
            /\ Forall menu_command cs
            /\ manager s' = snd (run cs (fresh f))).
  { destruct (loop int clock _ _) as [u s'|e s'|]; [| |contradiction];
      destruct L as (cs & H1 & H2 & _); exists s', cs; auto. }
  destruct S as (s' & cs & Es & Hcs & Em).
  exists s'. split; [exact E|]. split; [exact Es|]. rewrite Em.
  pose proof (menu_run_trimmed cs Hcs (fresh f) (Forall_nil _)) as T.
  split; [apply (run_Forall stamped stamped_exec); constructor|].
  split; [apply (run_Forall _ recognised_exec); constructor|].
  split.
  - apply (run_preserves
             (fun m => NoDup (map id (todos m))
                       /\ Forall (issued (next_id m)) (map id (todos m))
                       /\ 1 <= next_id m) exec_ids_distinct cs (fresh f)).
    simpl. repeat split; [constructor | constructor | lia].
  - split; eapply Forall_impl; try exact T; cbn beta; tauto.
Qed.

Lemma main_keeps_invariants_witness :
  exists r s',
    main (fun _ => Some 1) (fun _ => "2024-01-02 10:00:00") Absent
      ["1"; " Buy milk "; "HIGH"; ""; "3"; "1"; "8"] = Some r
    /\ final r = Some s'
    /\ Forall stamped (todos (manager s'))
    /\ Forall (fun t => In (priority t) priorities) (todos (manager s'))
    /\ NoDup (map id (todos (manager s')))
    /\ Forall (fun t => trimmed (task t)) (todos (manager s'))
    /\ Forall (fun t => trimmed_opt (due_date t)) (todos (manager s')).
Proof.
  apply (main_keeps_invariants (fun _ => Some 1)
           (fun _ => "2024-01-02 10:00:00") Absent
           ["1"; " Buy milk "; "HIGH"; ""; "3"; "1"; "8"]).
  left. reflexivity.
Defined.
